(** * Session identifiers of bokeh.util.session_id

    A shallow embedding of [src/bokeh/util/session_id.py] together with the
    parts of the Python runtime it calls (the utf-8 codec, [hashlib.sha256],
    [hmac], [base64.urlsafe_b64encode], [str.split], [str.rstrip],
    [hmac.compare_digest] and the [random] generator interface), followed by
    the properties of the module. *)

From Stdlib Require Import ZArith NArith Bool Ascii String List Lia.
From Stdlib Require Import Strings.Byte.
Import ListNotations.

Local Open Scope Z_scope.

(** ** Python values *)

(** A Python [bytes] object. *)
Definition bytes := list byte.

(** A Python [str]: the sequence of its characters.  A character is kept as
    an [ascii], read as the code point U+0000..U+00FF; every such text has a
    utf-8 encoding. *)
Definition str := list ascii.

(** A string literal. *)
Definition lit (s : string) : str := list_ascii_of_string s.

(** The exceptions raised on the paths of this module. *)
Inductive exn : Type :=
| TypeError
| IndexError
| NotImplementedError
| UnicodeDecodeError
| UnicodeEncodeError.

(** Outcome of a call: a returned value or a raised exception. *)
Inductive Res (A : Type) : Type :=
| Ok (a : A)
| Raise (e : exn).
Arguments Ok {A} a.
Arguments Raise {A} e.

(** The values accepted where the source annotates
    [Union[str, bytes, None]] (a secret key, or the argument of
    [_base64_encode]). *)
Inductive key : Type :=
| KNone
| KBytes (b : bytes)
| KStr (s : str).

(** An [Optional[bytes]] handed on to a callee that takes a key. *)
Definition key_of (k : option bytes) : key :=
  match k with
  | None => KNone
  | Some b => KBytes b
  end.

Definition byte_of_Z (z : Z) : byte :=
  byte_of_ascii (ascii_of_N (Z.to_N (z mod 256))).

Definition Z_of_byte (b : byte) : Z := Z.of_N (Byte.to_N b).

Definition code (c : ascii) : Z := Z.of_N (N_of_ascii c).

(** [codecs.encode(s, 'utf-8')]: one byte below U+0080, two bytes from
    U+0080 to U+00FF. *)
Definition utf8_char (c : ascii) : bytes :=
  let n := code c in
  if n <? 128 then [byte_of_Z n]
  else [byte_of_Z (192 + n / 64); byte_of_Z (128 + n mod 64)].

Definition utf8_encode (s : str) : bytes := flat_map utf8_char s.

(** The characters whose codes are the bytes. *)
Definition text_of (b : bytes) : str := map ascii_of_byte b.

Definition is_ascii_byte (x : byte) : bool := Z_of_byte x <? 128.

(** [codecs.decode(b, 'ascii')] *)
Definition ascii_decode (b : bytes) : Res str :=
  if forallb is_ascii_byte b then Ok (text_of b)
  else Raise UnicodeDecodeError.

(** ** hashlib.sha256 (FIPS 180-4) on 32-bit words kept in [Z] *)

Module SHA256.

Definition wrap (x : Z) : Z := x mod 4294967296.

Definition add32 (x y : Z) : Z := wrap (x + y).

Definition rotr (n x : Z) : Z :=
  Z.lor (Z.shiftr x n) (wrap (Z.shiftl x (32 - n))).

Definition not32 (x : Z) : Z := Z.lxor x 4294967295.

Definition Ch (x y z : Z) : Z :=
  Z.lxor (Z.land x y) (Z.land (not32 x) z).

Definition Maj (x y z : Z) : Z :=
  Z.lxor (Z.lxor (Z.land x y) (Z.land x z)) (Z.land y z).

Definition bsig0 (x : Z) : Z :=
  Z.lxor (Z.lxor (rotr 2 x) (rotr 13 x)) (rotr 22 x).

Definition bsig1 (x : Z) : Z :=
  Z.lxor (Z.lxor (rotr 6 x) (rotr 11 x)) (rotr 25 x).

Definition ssig0 (x : Z) : Z :=
  Z.lxor (Z.lxor (rotr 7 x) (rotr 18 x)) (Z.shiftr x 3).

Definition ssig1 (x : Z) : Z :=
  Z.lxor (Z.lxor (rotr 17 x) (rotr 19 x)) (Z.shiftr x 10).

(** Round constants: the first 32 bits of the fractional parts of the
    cube roots of the first 64 primes. *)
Definition K : list Z :=
  [ 1116352408; 1899447441; 3049323471; 3921009573; 961987163; 1508970993;
    2453635748; 2870763221; 3624381080; 310598401; 607225278; 1426881987;
    1925078388; 2162078206; 2614888103; 3248222580; 3835390401; 4022224774;
    264347078; 604807628; 770255983; 1249150122; 1555081692; 1996064986;
    2554220882; 2821834349; 2952996808; 3210313671; 3336571891; 3584528711;
    113926993; 338241895; 666307205; 773529912; 1294757372; 1396182291;
    1695183700; 1986661051; 2177026350; 2456956037; 2730485921; 2820302411;
    3259730800; 3345764771; 3516065817; 3600352804; 4094571909; 275423344;
    430227734; 506948616; 659060556; 883997877; 958139571; 1322822218;
    1537002063; 1747873779; 1955562222; 2024104815; 2227730452; 2361852424;
    2428436474; 2756734187; 3204031479; 3329325298 ].

(** The eight chaining words. *)
Record hash : Type := mkHash {
  ha : Z; hb : Z; hc : Z; hd : Z; he : Z; hf : Z; hg : Z; hh : Z
}.

(** Initial value: fractional parts of the square roots of the first
    eight primes. *)
Definition H0 : hash :=
  mkHash 1779033703 3144134277 1013904242 2773480762
         1359893119 2600822924 528734635 1541459225.

(** One round with constant [k] and schedule word [w]. *)
Definition round (s : hash) (k w : Z) : hash :=
  let t1 := wrap (hh s + bsig1 (he s) + Ch (he s) (hf s) (hg s) + k + w) in
  let t2 := wrap (bsig0 (ha s) + Maj (ha s) (hb s) (hc s)) in
  mkHash (add32 t1 t2) (ha s) (hb s) (hc s)
         (add32 (hd s) t1) (he s) (hf s) (hg s).

(** The rounds over a sliding window of the last sixteen schedule words:
    the head of the window is W(t); the word entering at the back is
    W(t+16) = ssig1 W(t+14) + W(t+9) + ssig0 W(t+1) + W(t). *)
Fixpoint rounds (ks : list Z) (win : list Z) (s : hash) : hash :=
  match ks with
  | [] => s
  | k :: ks' =>
      match win with
      | [] => s
      | w0 :: rest =>
          let w16 := wrap (ssig1 (nth 13 rest 0) + nth 8 rest 0
                           + ssig0 (nth 0 rest 0) + w0) in
          rounds ks' (rest ++ [w16]) (round s k w0)
      end
  end.

(** Big-endian 32-bit words of a block of bytes. *)
Fixpoint words (bs : list Z) : list Z :=
  match bs with
  | b0 :: b1 :: b2 :: b3 :: rest =>
      (b0 * 16777216 + b1 * 65536 + b2 * 256 + b3) :: words rest
  | _ => []
  end.

Definition compress (h : hash) (block : list Z) : hash :=
  let s := rounds K (words block) h in
  mkHash (add32 (ha h) (ha s)) (add32 (hb h) (hb s))
         (add32 (hc h) (hc s)) (add32 (hd h) (hd s))
         (add32 (he h) (he s)) (add32 (hf h) (hf s))
         (add32 (hg h) (hg s)) (add32 (hh h) (hh s)).

(** The message, the byte 0x80, zero bytes up to 56 modulo 64, and the
    bit length on eight bytes, big-endian. *)
Definition be_bytes (n : nat) (x : Z) : list Z :=
  map (fun i => (x / 256 ^ Z.of_nat i) mod 256) (rev (seq 0 n)).

Definition pad (msg : list Z) : list Z :=
  let len := Z.of_nat (length msg) in
  msg ++ [128] ++ repeat 0 (Z.to_nat ((55 - len) mod 64))
      ++ be_bytes 8 (8 * len).

Fixpoint blocks (n : nat) (data : list Z) (h : hash) : hash :=
  match n with
  | O => h
  | S n' => blocks n' (skipn 64 data) (compress h (firstn 64 data))
  end.

Definition word_bytes (x : Z) : bytes :=
  [byte_of_Z (x / 16777216); byte_of_Z (x / 65536);
   byte_of_Z (x / 256); byte_of_Z x].

Definition output (h : hash) : bytes :=
  word_bytes (ha h) ++ word_bytes (hb h) ++ word_bytes (hc h)
  ++ word_bytes (hd h) ++ word_bytes (he h) ++ word_bytes (hf h)
  ++ word_bytes (hg h) ++ word_bytes (hh h).

(** [hashlib.sha256(msg).digest()] *)
Definition digest (msg : bytes) : bytes :=
  let data := pad (map Z_of_byte msg) in
  output (blocks (length data / 64) data H0).

End SHA256.

(** ** hmac.new(key, msg, hashlib.sha256).digest() (RFC 2104) *)

Module HMAC.

Definition block_size : nat := 64.

Definition xor_byte (p : Z) (b : byte) : byte :=
  byte_of_Z (Z.lxor (Z_of_byte b) p).

(** A key longer than a block is hashed first; the key is then padded
    with zero bytes to the block size. *)
Definition block_key (k : bytes) : bytes :=
  let k' := if (block_size <? length k)%nat then SHA256.digest k else k in
  k' ++ repeat x00 (block_size - length k').

Definition hmac_sha256 (k msg : bytes) : bytes :=
  let bk := block_key k in
  let inner := SHA256.digest (map (xor_byte 54) bk ++ msg) in
  SHA256.digest (map (xor_byte 92) bk ++ inner).

End HMAC.

(** ** base64.urlsafe_b64encode, str.rstrip, str.split, hmac.compare_digest *)

Definition b64_alphabet : bytes :=
  list_byte_of_string
    "ABCDEFGHIJKLMNOPQRSTUVWXYZabcdefghijklmnopqrstuvwxyz0123456789-_".

Definition b64_pad : byte := "="%byte.

(** The character of a six-bit value. *)
Definition b64_digit (n : Z) : byte :=
  nth (Z.to_nat n) b64_alphabet "A"%byte.

(** [base64.urlsafe_b64encode]: three bytes give four characters; a final
    group of one or two bytes is completed with '='. *)
Fixpoint urlsafe_b64encode (bs : bytes) : bytes :=
  match bs with
  | [] => []
  | [x] =>
      let a := Z_of_byte x in
      [b64_digit (a / 4); b64_digit (a mod 4 * 16); b64_pad; b64_pad]
  | [x; y] =>
      let a := Z_of_byte x in
      let b := Z_of_byte y in
      [b64_digit (a / 4); b64_digit (a mod 4 * 16 + b / 16);
       b64_digit (b mod 16 * 4); b64_pad]
  | x :: y :: z :: rest =>
      let a := Z_of_byte x in
      let b := Z_of_byte y in
      let c := Z_of_byte z in
      b64_digit (a / 4) :: b64_digit (a mod 4 * 16 + b / 16)
        :: b64_digit (b mod 16 * 4 + c / 64) :: b64_digit (c mod 64)
        :: urlsafe_b64encode rest
  end.

Definition mem (c : ascii) (chars : str) : bool :=
  existsb (Ascii.eqb c) chars.

(** [s.rstrip(chars)]: drop the longest suffix made of characters of
    [chars]. *)
Fixpoint rstrip (chars s : str) : str :=
  match s with
  | [] => []
  | c :: t =>
      match rstrip chars t with
      | [] => if mem c chars then [] else [c]
      | t' => c :: t'
      end
  end.

(** [s.split(sep, 1)] for a one-character separator: the whole string when
    [sep] does not occur, else the parts before and after its first
    occurrence. *)
Fixpoint split1 (sep : ascii) (s : str) : list str :=
  match s with
  | [] => [[]]
  | c :: t =>
      if Ascii.eqb c sep then [[]; t]
      else match split1 sep t with
           | p :: ps => (c :: p) :: ps
           | [] => [[c]]
           end
  end.

Definition is_ascii (s : str) : bool :=
  forallb (fun c => code c <? 128) s.

Definition str_eqb (a b : str) : bool :=
  if list_eq_dec ascii_dec a b then true else false.

(** [hmac.compare_digest] on two [str]: a [TypeError] unless both are
    ascii, else their equality. *)
Definition compare_digest (a b : str) : Res bool :=
  if is_ascii a && is_ascii b then Ok (str_eqb a b) else Raise TypeError.

(** [str(b)] of a [bytes] object: its [repr]. *)
Definition dquote : ascii := ascii_of_nat 34.

Definition repr_quote (b : bytes) : ascii :=
  if existsb (Byte.eqb "'"%byte) b && negb (existsb (Byte.eqb x22) b)
  then dquote else "'"%char.

Definition hex_digit (n : Z) : ascii :=
  nth (Z.to_nat n) (lit "0123456789abcdef") "0"%char.

Definition repr_byte (q : ascii) (x : byte) : str :=
  let c := ascii_of_byte x in
  let n := Z_of_byte x in
  if Ascii.eqb c q || Ascii.eqb c "\"%char then ["\"%char; c]
  else if n =? 9 then lit "\t"
  else if n =? 10 then lit "\n"
  else if n =? 13 then lit "\r"
  else if (n <? 32) || (127 <=? n) then
    ["\"%char; "x"%char; hex_digit (n / 16); hex_digit (n mod 16)]
  else [c].

Definition bytes_repr (b : bytes) : str :=
  let q := repr_quote b in
  "b"%char :: q :: flat_map (repr_byte q) b ++ [q].

(** [str(k)] of an [Optional[bytes]]. *)
Definition str_of_optional_bytes (k : option bytes) : str :=
  match k with
  | None => lit "None"
  | Some b => bytes_repr b
  end.

(** ** The generator behind [random] and the state of the process *)

(** What the module uses of the object bound to its global [random]:
    [random.choice] indexes with [_randbelow(len(seq))], which is below its
    argument; on the Mersenne Twister [random.getstate()] is read through
    [str] and [random.seed] takes the digest. *)
Class Random (G : Type) : Type := {
  randbelow : G -> nat -> nat * G;
  randbelow_lt : forall g n, (0 < n)%nat -> (fst (randbelow g n) < n)%nat;
  getstate : G -> str;
  seed : bytes -> G -> G
}.

(** What a call does to the outside of the module. *)
Inductive event : Type :=
| Reseeded (digest : bytes)
| Drawn (i : nat)
| Signed (k msg : bytes).

(** The two module globals set by [_get_sysrandom()] at import
    ([random] is the system generator when [using_sysrandom] holds, else
    the Mersenne Twister of the [random] module), the wall clock ([clock n]
    is [str(time.time())] at its [n]-th reading) and the events so far. *)
Record World (G : Type) : Type := mkWorld {
  using_sysrandom : bool;
  random : G;
  clock : nat -> str;
  ticks : nat;
  trace : list event
}.
Arguments mkWorld {G}.
Arguments using_sysrandom {G}.
Arguments random {G}.
Arguments clock {G}.
Arguments ticks {G}.
Arguments trace {G}.

(** [_get_sysrandom]: the system generator when the platform has one, else
    the Mersenne Twister with a warning, and a second warning when no
    secret key is set. *)
Inductive warning : Type :=
| NoSecureGenerator
| NoSecureGeneratorAndNoSecretKey.

Definition _get_sysrandom (has_system_random : bool) (settings_key : option str)
  : bool * list warning :=
  if has_system_random then (true, [])
  else (false,
        NoSecureGenerator ::
        match settings_key with
        | None => [NoSecureGeneratorAndNoSecretKey]
        | Some _ => []
        end).

Section SessionId.

Context {G : Type} `{Random G}.

(** Computations over the process state that may raise. *)
Definition M (A : Type) : Type := World G -> Res A * World G.

Definition ret {A} (a : A) : M A := fun w => (Ok a, w).

Definition bind {A B} (c : M A) (k : A -> M B) : M B :=
  fun w =>
    match c w with
    | (Ok a, w') => k a w'
    | (Raise e, w') => (Raise e, w')
    end.

Definition lift {A} (r : Res A) : M A := fun w => (r, w).

Local Notation "x <- c ;; k" := (bind c (fun x => k))
  (at level 61, c at next level, right associativity).
Local Notation "c ;;; k" := (bind c (fun _ => k))
  (at level 61, right associativity).

Definition record (e : event) (w : World G) : World G :=
  mkWorld (using_sysrandom w) (random w) (clock w) (ticks w)
          (trace w ++ [e]).

Definition log (e : event) : M unit := fun w => (Ok tt, record e w).

Definition get_using_sysrandom : M bool :=
  fun w => (Ok (using_sysrandom w), w).

(** [str(random.getstate())]; the system generator has no state to give
    and raises. *)
Definition random_getstate : M str :=
  fun w =>
    if using_sysrandom w then (Raise NotImplementedError, w)
    else (Ok (getstate (random w)), w).

(** [str(time.time())] *)
Definition time_time : M str :=
  fun w => (Ok (clock w (ticks w)),
            mkWorld (using_sysrandom w) (random w) (clock w)
                    (S (ticks w)) (trace w)).

(** [random.seed(d)]; the system generator ignores it. *)
Definition random_seed (d : bytes) : M unit :=
  fun w =>
    if using_sysrandom w then (Ok tt, w)
    else (Ok tt, mkWorld (using_sysrandom w) (seed d (random w))
                         (clock w) (ticks w) (trace w ++ [Reseeded d])).

(** [random.choice(seq)]: [seq[_randbelow(len(seq))]], an [IndexError]
    on the empty sequence. *)
Definition random_choice (seq : str) : M ascii :=
  fun w =>
    match seq with
    | [] => (Raise IndexError, w)
    | _ :: _ =>
        let (i, g) := randbelow (random w) (length seq) in
        let w' := mkWorld (using_sysrandom w) g (clock w) (ticks w)
                          (trace w ++ [Drawn i]) in
        match nth_error seq i with
        | Some c => (Ok c, w')
        | None => (Raise IndexError, w')
        end
    end.

(** [hmac.new(k, msg, hashlib.sha256).digest()] *)
Definition hmac_digest (k : option bytes) (msg : bytes) : M bytes :=
  match k with
  | None => lift (Raise TypeError)
  | Some kb => log (Signed kb msg) ;;; ret (HMAC.hmac_sha256 kb msg)
  end.

(** ** The module *)

Definition _ensure_bytes (secret_key : key) : option bytes :=
  match secret_key with
  | KNone => None
  | KBytes b => Some b
  | KStr s => Some (utf8_encode s)
  end.

Definition _reseed_if_needed (using_sysrandom : bool) (secret_key : key)
  : M unit :=
  let secret_key := _ensure_bytes secret_key in
  if negb using_sysrandom then
    st <- random_getstate ;;
    t <- time_time ;;
    let data := utf8_encode (st ++ t ++ str_of_optional_bytes secret_key) in
    random_seed (SHA256.digest data)
  else ret tt.

Definition _base64_encode (decoded : key) : Res str :=
  let decoded_as_bytes := _ensure_bytes decoded in
  match decoded_as_bytes with
  | None => Raise TypeError
  | Some b =>
      match ascii_decode (urlsafe_b64encode b) with
      | Ok encoded => Ok (rstrip (lit "=") encoded)
      | Raise e => Raise e
      end
  end.

Definition _signature (base_id : str) (secret_key : key) : M str :=
  let secret_key := _ensure_bytes secret_key in
  let base_id_encoded := utf8_encode base_id in
  d <- hmac_digest secret_key base_id_encoded ;;
  lift (_base64_encode (KBytes d)).

(** [''.join(random.choice(allowed_chars) for i in range(n))] *)
Fixpoint join_choices (n : nat) (allowed_chars : str) : M str :=
  match n with
  | O => ret []
  | S n' =>
      c <- random_choice allowed_chars ;;
      rest <- join_choices n' allowed_chars ;;
      ret (c :: rest)
  end.

Definition _get_random_string (length : Z) (allowed_chars : str)
           (secret_key : key) : M str :=
  let secret_key := _ensure_bytes secret_key in
  u <- get_using_sysrandom ;;
  _reseed_if_needed u (key_of secret_key) ;;;
  join_choices (Z.to_nat length) allowed_chars.

(** The default arguments of [_get_random_string]. *)
Definition default_length : Z := 44.

Definition default_allowed_chars : str :=
  lit "abcdefghijklmnopqrstuvwxyzABCDEFGHIJKLMNOPQRSTUVWXYZ0123456789".

(** [settings_key] is [settings.secret_key_bytes()], the default of the
    [secret_key] argument. *)
Definition generate_secret_key (settings_key : option bytes) : M str :=
  _get_random_string default_length default_allowed_chars
                     (key_of settings_key).

Definition generate_session_id (secret_key : key) (signed : bool) : M str :=
  let secret_key := _ensure_bytes secret_key in
  if signed then
    base_id <- _get_random_string default_length default_allowed_chars
                                  (key_of secret_key) ;;
    s <- _signature base_id (key_of secret_key) ;;
    ret (base_id ++ lit "-" ++ s)
  else
    _get_random_string default_length default_allowed_chars
                       (key_of secret_key).

Definition check_session_id_signature (session_id : str) (secret_key : key)
           (signed : bool) : M bool :=
  let secret_key := _ensure_bytes secret_key in
  if signed then
    match split1 "-" session_id with
    | [base_id; provided_signature] =>
        expected_signature <- _signature base_id (key_of secret_key) ;;
        lift (compare_digest expected_signature provided_signature)
    | _ => ret false
    end
  else ret true.

End SessionId.

(** A generator to run the module on: a counter whose draws walk through
    the sequence and whose seed restarts it from the first digest byte. *)
#[export] Instance CounterRandom : Random nat := {
  randbelow g n := (g mod n, S g)%nat;
  randbelow_lt g n Hn := Nat.mod_upper_bound g n (Nat.neq_sym _ _ (Nat.lt_neq _ _ Hn));
  getstate g := lit "(3, (" ++ repeat "1"%char g ++ lit "), None)";
  seed d _ := Z.to_nat (Z_of_byte (hd x00 d))
}.

Definition world0 (sysrandom : bool) : World nat :=
  mkWorld sysrandom 7%nat (fun _ => lit "1604500000.25") 0%nat [].

(** ** The token formats and the observations on a trace *)

Definition in_range (lo hi : ascii) (c : ascii) : bool :=
  (code lo <=? code c) && (code c <=? code hi).

(** The class [[A-Za-z0-9]]. *)
Definition is_alnum (c : ascii) : bool :=
  in_range "A" "Z" c || in_range "a" "z" c || in_range "0" "9" c.

(** The class [[A-Za-z0-9_-]]. *)
Definition is_b64url (c : ascii) : bool :=
  is_alnum c || Ascii.eqb c "_" || Ascii.eqb c "-".

(** [^[A-Za-z0-9]{L}$] *)
Definition re_unsigned (L : nat) (t : str) : bool :=
  (length t =? L)%nat && forallb is_alnum t.

(** [^[A-Za-z0-9]{L}-[A-Za-z0-9_-]+$] *)
Definition re_signed (L : nat) (t : str) : bool :=
  re_unsigned L (firstn L t) &&
  match skipn L t with
  | sep :: c :: rest => Ascii.eqb sep "-" && forallb is_b64url (c :: rest)
  | _ => false
  end.

(** The signature as the specification words it: the hmac-sha256 digest of
    the utf-8 bytes of the base identifier, in url-safe base64, without its
    trailing '=' characters. *)
Fixpoint drop_while (p : ascii -> bool) (s : str) : str :=
  match s with
  | [] => []
  | c :: t => if p c then drop_while p t else s
  end.

Definition strip_trailing_pad (s : str) : str :=
  rev (drop_while (Ascii.eqb "=") (rev s)).

Definition spec_signature (k : bytes) (base_id : str) : str :=
  strip_trailing_pad
    (text_of (urlsafe_b64encode (HMAC.hmac_sha256 k (utf8_encode base_id)))).

(** The digest that [_reseed_if_needed] feeds to [random.seed] in a world. *)
Definition reseed_digest {G} `{Random G} (w : World G) (k : key) : bytes :=
  SHA256.digest
    (utf8_encode (getstate (random w) ++ clock w (ticks w)
                  ++ str_of_optional_bytes (_ensure_bytes k))).

(** The signature that [_signature] returns for a key that is present. *)
Definition expected_signature (k : bytes) (base_id : str) : str :=
  rstrip (lit "=")
    (text_of (urlsafe_b64encode (HMAC.hmac_sha256 k (utf8_encode base_id)))).

(** [w'] is [w] after the events [evs], under the same randomness source. *)
Definition extends {G} (w : World G) (evs : list event) (w' : World G) : Prop :=
  using_sysrandom w' = using_sysrandom w /\ trace w' = trace w ++ evs.

(** The re-seed events of a random string: none on the system generator,
    one on the fallback. *)
Definition reseed_events {G} `{Random G} (w : World G) (k : key) : list event :=
  if using_sysrandom w then [] else [Reseeded (reseed_digest w k)].

Definition is_reseed (e : event) : bool :=
  match e with Reseeded _ => true | _ => false end.

Definition is_draw (e : event) : bool :=
  match e with Drawn _ => true | _ => false end.

(** Every draw of the trace has a re-seed between it and the draw before;
    [fresh] tells whether a re-seed happened since the last draw. *)
Fixpoint reseed_before_each_draw (fresh : bool) (tr : list event) : bool :=
  match tr with
  | [] => true
  | Reseeded _ :: tr' => reseed_before_each_draw true tr'
  | Drawn _ :: tr' => fresh && reseed_before_each_draw false tr'
  | Signed _ _ :: tr' => reseed_before_each_draw fresh tr'
  end.

(** The key of the concrete scenario. *)
Definition topsecret : bytes := list_byte_of_string "topsecret".

(** [w'] is [w] after [t] readings of the clock and the events [evs]: the
    randomness source and the clock itself are the ones of [w]. *)
Definition advanced {G} (w : World G) (t : nat) (evs : list event)
           (w' : World G) : Prop :=
  using_sysrandom w' = using_sysrandom w
  /\ clock w' = clock w
  /\ ticks w' = (ticks w + t)%nat
  /\ trace w' = trace w ++ evs.

(** The clock readings of a random string: one for the re-seed on the
    fallback, none on the system generator. *)
Definition reseed_ticks {G} (w : World G) : nat :=
  if using_sysrandom w then 0%nat else 1%nat.

(** The hmac event of a generation: one when signing with a present key. *)
Definition sign_events (signed : bool) (k : option bytes) (base_id : str)
  : list event :=
  match signed, k with
  | true, Some kb => [Signed kb (utf8_encode base_id)]
  | _, _ => []
  end.

(** The state keeps its generator, flag and clock; only the trace differs. *)
Definition same_generator {G} (w w' : World G) : Prop :=
  using_sysrandom w' = using_sysrandom w
  /\ random w' = random w
  /\ clock w' = clock w
  /\ ticks w' = ticks w.

Definition is_signed_event (e : event) : bool :=
  match e with Signed _ _ => true | _ => false end.

(** The first character of a utf-8 text (of characters up to U+00FF) and
    the bytes after it: the inverse of [utf8_char]. *)
Definition utf8_head (b : bytes) : option (ascii * bytes) :=
  match b with
  | [] => None
  | x :: r =>
      if Z_of_byte x <? 128 then Some (ascii_of_byte x, r)
      else match r with
           | [] => None
           | y :: r' =>
               Some (ascii_of_N (Z.to_N ((Z_of_byte x - 192) * 64
                                         + (Z_of_byte y - 128))), r')
           end
  end.

(** The six-bit value of a base64 character: its place in the alphabet. *)
Fixpoint index_of (x : byte) (l : bytes) : Z :=
  match l with
  | [] => 0
  | y :: l' => if Byte.eqb x y then 0 else 1 + index_of x l'
  end.

Definition b64_index (x : byte) : Z := index_of x b64_alphabet.

(** The digits of the base64 text, without the '=' that complete it. *)
Fixpoint b64_body (bs : bytes) : bytes :=
  match bs with
  | [] => []
  | [x] =>
      let a := Z_of_byte x in
      [b64_digit (a / 4); b64_digit (a mod 4 * 16)]
  | [x; y] =>
      let a := Z_of_byte x in
      let b := Z_of_byte y in
      [b64_digit (a / 4); b64_digit (a mod 4 * 16 + b / 16);
       b64_digit (b mod 16 * 4)]
  | x :: y :: z :: rest =>
      let a := Z_of_byte x in
      let b := Z_of_byte y in
      let c := Z_of_byte z in
      b64_digit (a / 4) :: b64_digit (a mod 4 * 16 + b / 16)
        :: b64_digit (b mod 16 * 4 + c / 64) :: b64_digit (c mod 64)
        :: b64_body rest
  end.

(** ** The module over every Python [str]

    Above, a [str] holds characters up to U+00FF, all of which the utf-8
    codec encodes.  Here a [str] is any sequence of code points, lone
    surrogates included, and [codecs.encode(s, 'utf-8')] raises on those;
    the functions of the module are taken again from the source with that
    codec. *)

Module FullStr.

(** A Python [str]: its code points, U+0000 to U+10FFFF. *)
Definition text := list N.

Definition tlit (s : string) : text := map N_of_ascii (list_ascii_of_string s).

(** The code points that have a utf-8 encoding: all but the surrogates
    U+D800..U+DFFF. *)
Definition is_scalar (c : N) : bool :=
  ((c <? 55296) || ((57343 <? c) && (c <? 1114112)))%N.

(** The utf-8 bytes of a code point: one to four bytes by its range, none
    for a surrogate. *)
Definition utf8_char (c : N) : option bytes :=
  let n := Z.of_N c in
  if n <? 128 then Some [byte_of_Z n]
  else if n <? 2048 then
    Some [byte_of_Z (192 + n / 64); byte_of_Z (128 + n mod 64)]
  else if is_scalar c then
    if n <? 65536 then
      Some [byte_of_Z (224 + n / 4096); byte_of_Z (128 + n / 64 mod 64);
            byte_of_Z (128 + n mod 64)]
    else
      Some [byte_of_Z (240 + n / 262144); byte_of_Z (128 + n / 4096 mod 64);
            byte_of_Z (128 + n / 64 mod 64); byte_of_Z (128 + n mod 64)]
  else None.

(** [codecs.encode(s, 'utf-8')]: a [UnicodeEncodeError] when a character
    has no encoding. *)
Fixpoint encode_utf8 (s : text) : Res bytes :=
  match s with
  | [] => Ok []
  | c :: t =>
      match utf8_char c with
      | None => Raise UnicodeEncodeError
      | Some bs =>
          match encode_utf8 t with
          | Ok r => Ok (bs ++ r)
          | Raise e => Raise e
          end
      end
  end.

(** [codecs.decode(b, 'ascii')] *)
Definition decode_ascii (b : bytes) : Res text :=
  if forallb is_ascii_byte b then Ok (map Byte.to_N b)
  else Raise UnicodeDecodeError.

(** The first code point of utf-8 bytes and the bytes after it. *)
Definition utf8_head (b : bytes) : option (N * bytes) :=
  match b with
  | [] => None
  | x :: r =>
      let a := Z_of_byte x in
      if a <? 128 then Some (Z.to_N a, r)
      else if a <? 224 then
        match r with
        | y :: r' => Some (Z.to_N ((a - 192) * 64 + (Z_of_byte y - 128)), r')
        | _ => None
        end
      else if a <? 240 then
        match r with
        | y :: z :: r' =>
            Some (Z.to_N ((a - 224) * 4096 + (Z_of_byte y - 128) * 64
                          + (Z_of_byte z - 128)), r')
        | _ => None
        end
      else
        match r with
        | y :: z :: u :: r' =>
            Some (Z.to_N ((a - 240) * 262144 + (Z_of_byte y - 128) * 4096
                          + (Z_of_byte z - 128) * 64 + (Z_of_byte u - 128)),
                  r')
        | _ => None
        end
  end.

(** The text of utf-8 bytes, read character by character. *)
Fixpoint decode_fuel (n : nat) (b : bytes) : option text :=
  match b with
  | [] => Some []
  | _ :: _ =>
      match n with
      | O => None
      | S n' =>
          match utf8_head b with
          | None => None
          | Some (c, r) =>
              match decode_fuel n' r with
              | Some t => Some (c :: t)
              | None => None
              end
          end
      end
  end.

Definition decode_utf8 (b : bytes) : option text := decode_fuel (length b) b.

Definition tmem (c : N) (chars : text) : bool := existsb (N.eqb c) chars.

(** [s.rstrip(chars)] *)
Fixpoint trstrip (chars s : text) : text :=
  match s with
  | [] => []
  | c :: t =>
      match trstrip chars t with
      | [] => if tmem c chars then [] else [c]
      | t' => c :: t'
      end
  end.

(** [s.split(sep, 1)] for a one-character separator. *)
Fixpoint tsplit1 (sep : N) (s : text) : list text :=
  match s with
  | [] => [[]]
  | c :: t =>
      if N.eqb c sep then [[]; t]
      else match tsplit1 sep t with
           | p :: ps => (c :: p) :: ps
           | [] => [[c]]
           end
  end.

Definition t_is_ascii (s : text) : bool := forallb (fun c => (c <? 128)%N) s.

Definition text_eqb (a b : text) : bool :=
  if list_eq_dec N.eq_dec a b then true else false.

(** [hmac.compare_digest] on two [str]. *)
Definition t_compare_digest (a b : text) : Res bool :=
  if t_is_ascii a && t_is_ascii b then Ok (text_eqb a b) else Raise TypeError.

(** The code point of '-'. *)
Definition hyphen : N := 45%N.

(** A secret key: [None], bytes, or any text. *)
Inductive skey : Type :=
| SNone
| SBytes (b : bytes)
| SText (s : text).

Definition skey_of (k : option bytes) : skey :=
  match k with
  | None => SNone
  | Some b => SBytes b
  end.

Section SessionId.

Context {G : Type} `{Random G}.

Local Abbreviation MG := (M (G:=G)).
Local Notation "x <- c ;; k" := (bind c (fun x => k))
  (at level 61, c at next level, right associativity).
Local Notation "c ;;; k" := (bind c (fun _ => k))
  (at level 61, right associativity).

(** [random.choice(seq)] on a text. *)
Definition choice (seq : text) : MG N :=
  fun w =>
    match seq with
    | [] => (Raise IndexError, w)
    | _ :: _ =>
        let (i, g) := randbelow (random w) (length seq) in
        let w' := mkWorld (using_sysrandom w) g (clock w) (ticks w)
                          (trace w ++ [Drawn i]) in
        match nth_error seq i with
        | Some c => (Ok c, w')
        | None => (Raise IndexError, w')
        end
    end.

Definition _ensure_bytes (secret_key : skey) : Res (option bytes) :=
  match secret_key with
  | SNone => Ok None
  | SBytes b => Ok (Some b)
  | SText s =>
      match encode_utf8 s with
      | Ok b => Ok (Some b)
      | Raise e => Raise e
      end
  end.

(** The text that is hashed is made of the [str] of the generator state,
    of the time and of the key: characters below U+0100, encoded by
    [utf8_encode]. *)
Definition _reseed_if_needed (using_sysrandom : bool) (secret_key : skey)
  : MG unit :=
  secret_key <- lift (_ensure_bytes secret_key) ;;
  if negb using_sysrandom then
    st <- random_getstate ;;
    t <- time_time ;;
    let data := utf8_encode (st ++ t ++ str_of_optional_bytes secret_key) in
    random_seed (SHA256.digest data)
  else ret tt.

Definition _base64_encode (decoded : skey) : Res text :=
  match _ensure_bytes decoded with
  | Raise e => Raise e
  | Ok None => Raise TypeError
  | Ok (Some b) =>
      match decode_ascii (urlsafe_b64encode b) with
      | Ok encoded => Ok (trstrip (tlit "=") encoded)
      | Raise e => Raise e
      end
  end.

Definition _signature (base_id : text) (secret_key : skey) : MG text :=
  secret_key <- lift (_ensure_bytes secret_key) ;;
  base_id_encoded <- lift (encode_utf8 base_id) ;;
  d <- hmac_digest secret_key base_id_encoded ;;
  lift (_base64_encode (SBytes d)).

Fixpoint join_choices (n : nat) (allowed_chars : text) : MG text :=
  match n with
  | O => ret []
  | S n' =>
      c <- choice allowed_chars ;;
      rest <- join_choices n' allowed_chars ;;
      ret (c :: rest)
  end.

Definition _get_random_string (length : Z) (allowed_chars : text)
           (secret_key : skey) : MG text :=
  secret_key <- lift (_ensure_bytes secret_key) ;;
  u <- get_using_sysrandom ;;
  _reseed_if_needed u (skey_of secret_key) ;;;
  join_choices (Z.to_nat length) allowed_chars.

Definition default_allowed_chars : text :=
  tlit "abcdefghijklmnopqrstuvwxyzABCDEFGHIJKLMNOPQRSTUVWXYZ0123456789".

Definition generate_secret_key (settings_key : option bytes) : MG text :=
  _get_random_string default_length default_allowed_chars
                     (skey_of settings_key).

Definition generate_session_id (secret_key : skey) (signed : bool) : MG text :=
  secret_key <- lift (_ensure_bytes secret_key) ;;
  if signed then
    base_id <- _get_random_string default_length default_allowed_chars
                                  (skey_of secret_key) ;;
    s <- _signature base_id (skey_of secret_key) ;;
    ret (base_id ++ tlit "-" ++ s)
  else
    _get_random_string default_length default_allowed_chars
                       (skey_of secret_key).

Definition check_session_id_signature (session_id : text) (secret_key : skey)
           (signed : bool) : MG bool :=
  secret_key <- lift (_ensure_bytes secret_key) ;;
  if signed then
    match tsplit1 hyphen session_id with
    | [base_id; provided_signature] =>
        expected_signature <- _signature base_id (skey_of secret_key) ;;
        lift (t_compare_digest expected_signature provided_signature)
    | _ => ret false
    end
  else ret true.

End SessionId.

End FullStr.

(** A text all of whose characters have a utf-8 encoding. *)
Definition encodable (s : FullStr.text) : bool := forallb FullStr.is_scalar s.

(** A key that is [None], bytes, or a text with a utf-8 encoding. *)
Definition encodable_key (k : FullStr.skey) : bool :=
  match k with
  | FullStr.SText s => encodable s
  | _ => true
  end.

(** A text below U+0100 as a text in full, and a key likewise. *)
Definition up (s : str) : FullStr.text := map N_of_ascii s.

Definition up_key (k : key) : FullStr.skey :=
  match k with
  | KNone => FullStr.SNone
  | KBytes b => FullStr.SBytes b
  | KStr s => FullStr.SText (up s)
  end.

Definition res_map {A B : Type} (f : A -> B) (r : Res A) : Res B :=
  match r with
  | Ok a => Ok (f a)
  | Raise e => Raise e
  end.

Definition hex (b : bytes) : str :=
  flat_map (fun x => [hex_digit (Z_of_byte x / 16); hex_digit (Z_of_byte x mod 16)]) b.

Definition bytes_of (s : string) : bytes := list_byte_of_string s.

Example sha256_abc :
  hex (SHA256.digest (bytes_of "abc"))
  = lit "ba7816bf8f01cfea414140de5dae2223b00361a396177a9cb410ff61f20015ad".
Proof. vm_compute. reflexivity. Qed.

Example hmac_topsecret_abc :
  hex (HMAC.hmac_sha256 (bytes_of "topsecret") (bytes_of "abc"))
  = lit "eca5ab6493517d4623adee362c8b799a0c8a9e23b842c8a8678e5e1d79e9dad8".
Proof. vm_compute. reflexivity. Qed.

Example b64_hmac_topsecret_abc :
  text_of (urlsafe_b64encode
    (HMAC.hmac_sha256 (bytes_of "topsecret") (bytes_of "abc")))
  = lit "7KWrZJNRfUYjre42LIt5mgyKniO4QsioZ45eHXnp2tg=".
Proof. vm_compute. reflexivity. Qed.

Example b64_long_key :
  text_of (urlsafe_b64encode
    (HMAC.hmac_sha256 (repeat "k"%byte 70)
       (bytes_of "abcdefghijklmnopqrstuvwxyzABCDEFGHIJKLMNOPQR")))
  = lit "jZ6847vH_Us7TDRaO7URJAjABKPJXLBF0-nu4omTcfQ=".
Proof. vm_compute. reflexivity. Qed.

Example b64_empty_key :
  text_of (urlsafe_b64encode
    (HMAC.hmac_sha256 []
       (bytes_of "abcdefghijklmnopqrstuvwxyzABCDEFGHIJKLMNOPQRabcdefghijklmnopqrstuvwxyzABCDEFGHIJKLMNOPQR")))
  = lit "nD_2Ee3xh4wEQgHKjVPLF5BipQIvkZSD9PCBQCzyiFE=".
Proof. vm_compute. reflexivity. Qed.

Example rstrip_ex : rstrip (lit "=") (lit "a=b==") = lit "a=b".
Proof. reflexivity. Qed.

Example split1_ex : split1 "-" (lit "ab-c-d") = [lit "ab"; lit "c-d"].
Proof. reflexivity. Qed.

Example split1_none : split1 "-" (lit "abcd") = [lit "abcd"].
Proof. reflexivity. Qed.

Example repr_ex :
  bytes_repr (bytes_of "a'b") = lit "b" ++ [dquote] ++ lit "a'b" ++ [dquote].
Proof. vm_compute. reflexivity. Qed.

Example utf8_e_acute : utf8_encode [ascii_of_nat 233] = [xc3; xa9].
Proof. reflexivity. Qed.

Example utf8_u0080 : utf8_encode [ascii_of_nat 128] = [xc2; x80].
Proof. reflexivity. Qed.

Example repr_escapes :
  bytes_repr [x61; x0a; x00; xff; x5c; x27]
  = lit "b" ++ [dquote] ++ lit "a\n\x00\xff\\'" ++ [dquote].
Proof. vm_compute. reflexivity. Qed.

Example compare_digest_non_ascii :
  compare_digest (lit "abc") (lit "ab" ++ [ascii_of_nat 233]) = Raise TypeError.
Proof. reflexivity. Qed.

Example generate_signed_run_topsecret :
  fst (generate_session_id (KBytes topsecret) true (world0 true))
  = Ok (lit "hijklmnopqrstuvwxyzABCDEFGHIJKLMNOPQRSTUVWXY-HMP6pjf6XZy1TmvBXpdsyx4wkKV77vT7N09PSKBWT2o").
Proof. vm_compute. reflexivity. Qed.

Example check_tampered :
  fst (check_session_id_signature
         (lit "hijklmnopqrstuvwxyzABCDEFGHIJKLMNOPQRSTUVWXY-HMP6pjf6XZy1TmvBXpdsyx4wkKV77vT7N09PSKBWT2p")
         (KBytes topsecret) true (world0 true))
  = Ok false.
Proof. vm_compute. reflexivity. Qed.

Example check_non_ascii_signature :
  fst (check_session_id_signature (lit "abc-" ++ [ascii_of_nat 233])
         (KBytes topsecret) true (world0 true))
  = Raise TypeError.
Proof. vm_compute. reflexivity. Qed.

Example reseed_on_system_generator :
  fst (_reseed_if_needed false KNone (world0 true)) = Raise NotImplementedError.
Proof. reflexivity. Qed.

Example generate_secret_key_run :
  fst (generate_secret_key None (world0 false))
  = fst (_get_random_string 44 default_allowed_chars KNone (world0 false)).
Proof. reflexivity. Qed.

Example get_sysrandom_fallback :
  _get_sysrandom false None
  = (false, [NoSecureGenerator; NoSecureGeneratorAndNoSecretKey]).
Proof. reflexivity. Qed.

Example full_utf8_euro : FullStr.encode_utf8 [8364%N] = Ok [xe2; x82; xac].
Proof. reflexivity. Qed.

Example full_utf8_clef :
  FullStr.encode_utf8 [119070%N] = Ok [xf0; x9d; x84; x9e].
Proof. reflexivity. Qed.

Example full_utf8_surrogate :
  FullStr.encode_utf8 [97%N; 56448%N] = Raise UnicodeEncodeError.
Proof. reflexivity. Qed.

Example full_decode_clef :
  FullStr.decode_utf8 [x61; xf0; x9d; x84; x9e; xc3; xa9]
  = Some [97%N; 119070%N; 233%N].
Proof. reflexivity. Qed.

Example full_generate_signed_run :
  fst (FullStr.generate_session_id (FullStr.SBytes topsecret) true
         (world0 true))
  = Ok (FullStr.tlit "hijklmnopqrstuvwxyzABCDEFGHIJKLMNOPQRSTUVWXY-HMP6pjf6XZy1TmvBXpdsyx4wkKV77vT7N09PSKBWT2o").
Proof. vm_compute. reflexivity. Qed.

Example full_check_surrogate_base :
  fst (FullStr.check_session_id_signature
         (56448%N :: FullStr.tlit "-abc") (FullStr.SBytes topsecret) true
         (world0 true))
  = Raise UnicodeEncodeError.
Proof. vm_compute. reflexivity. Qed.

Example generate_unsigned_run :
  fst (generate_session_id (KBytes (bytes_of "topsecret")) false (world0 true))
  = Ok (lit "hijklmnopqrstuvwxyzABCDEFGHIJKLMNOPQRSTUVWXY").
Proof. vm_compute. reflexivity. Qed.

(** ** Facts about the runtime functions *)

Section Strings.

Variable chars : str.

Lemma rstrip_snoc (s : str) (c : ascii) :
  rstrip chars (s ++ [c])
  = if mem c chars then rstrip chars s else s ++ [c].
Proof.
  induction s as [|a s IH]; simpl.
  - destruct (mem c chars); reflexivity.
  - rewrite IH. destruct (mem c chars); [reflexivity|].
    destruct s; reflexivity.
Qed.

Lemma rstrip_keeps (s : str) :
  Forall (fun c => mem c chars = false) s -> rstrip chars s = s.
Proof.
  induction 1 as [|a s Ha _ IH]; simpl; [reflexivity|].
  rewrite IH, Ha. destruct s; reflexivity.
Qed.

End Strings.

Lemma mem_single (c d : ascii) : mem c [d] = Ascii.eqb c d.
Proof. unfold mem; simpl. apply orb_false_r. Qed.

(** [rstrip('=')] is the removal of the trailing '=' characters. *)
Lemma rstrip_pad_spec (s : str) : rstrip (lit "=") s = strip_trailing_pad s.
Proof.
  unfold strip_trailing_pad.
  induction s as [|c s IH] using rev_ind; [reflexivity|].
  change (lit "=") with ["="%char] in *.
  rewrite rstrip_snoc, rev_app_distr, mem_single, Ascii.eqb_sym.
  cbn [rev app drop_while].
  destruct (Ascii.eqb "=" c); [exact IH|].
  cbn [rev]. now rewrite rev_involutive.
Qed.

Section Split.

Variable sep : ascii.

Lemma split1_absent (s : str) : ~ In sep s -> split1 sep s = [s].
Proof.
  induction s as [|c s IH]; simpl; intros Hn; [reflexivity|].
  destruct (Ascii.eqb_spec c sep) as [->|_].
  - exfalso. apply Hn. now left.
  - rewrite IH; [reflexivity|]. intros Hin. apply Hn. now right.
Qed.

Lemma split1_first (a b : str) :
  ~ In sep a -> split1 sep (a ++ sep :: b) = [a; b].
Proof.
  induction a as [|c a IH]; simpl; intros Hn.
  - now rewrite Ascii.eqb_refl.
  - destruct (Ascii.eqb_spec c sep) as [->|_].
    + exfalso. apply Hn. now left.
    + rewrite IH; [reflexivity|]. intros Hin. apply Hn. now right.
Qed.

(** A string either lacks the separator or splits at its first one. *)
Lemma first_occurrence (s : str) :
  ~ In sep s \/ exists a b, s = a ++ sep :: b /\ ~ In sep a.
Proof.
  induction s as [|c s [IH|(a & b & -> & Ha)]].
  - left. intros [].
  - destruct (Ascii.eqb_spec c sep) as [->|Hc].
    + right. exists [], s. split; [reflexivity|intros []].
    + left. intros [E|Hin]; [now apply Hc|now apply IH].
  - right. destruct (Ascii.eqb_spec c sep) as [->|Hc].
    + exists [], (a ++ sep :: b). split; [reflexivity|intros []].
    + exists (c :: a), b. split; [reflexivity|].
      intros [E|Hin]; [now apply Hc|now apply Ha].
Qed.

End Split.

Lemma str_eqb_eq (a b : str) : str_eqb a b = true <-> a = b.
Proof.
  unfold str_eqb. destruct (list_eq_dec ascii_dec a b); split; congruence.
Qed.

Lemma compare_digest_true (a b : str) :
  is_ascii a = true -> (compare_digest a b = Ok true <-> a = b).
Proof.
  intros Ha. unfold compare_digest. rewrite Ha. simpl. split.
  - destruct (is_ascii b); [|discriminate].
    intros E. apply str_eqb_eq. congruence.
  - intros <-. rewrite Ha. f_equal. now apply str_eqb_eq.
Qed.

(** Character classes. *)
Lemma alphabet_b64url :
  Forall (fun b => is_b64url (ascii_of_byte b) = true) b64_alphabet.
Proof. repeat constructor. Qed.

Lemma b64_digit_b64url (n : Z) : is_b64url (ascii_of_byte (b64_digit n)) = true.
Proof.
  unfold b64_digit.
  destruct (nth_in_or_default (Z.to_nat n) b64_alphabet "A"%byte) as [Hin| ->].
  - exact (proj1 (Forall_forall _ _) alphabet_b64url _ Hin).
  - reflexivity.
Qed.

Lemma b64url_not_pad (c : ascii) : is_b64url c = true -> mem c (lit "=") = false.
Proof.
  change (lit "=") with ["="%char]. rewrite mem_single.
  destruct (Ascii.eqb_spec c "=") as [->|]; [discriminate|reflexivity].
Qed.

Lemma b64url_ascii (c : ascii) : is_b64url c = true -> (code c <? 128) = true.
Proof.
  destruct c as [b0 b1 b2 b3 b4 b5 b6 b7].
  destruct b0, b1, b2, b3, b4, b5, b6, b7; vm_compute; congruence.
Qed.

Lemma alnum_not_dash (c : ascii) : is_alnum c = true -> c <> "-"%char.
Proof. intros Hc ->. discriminate. Qed.

Lemma default_chars_alnum : forallb is_alnum default_allowed_chars = true.
Proof. reflexivity. Qed.

(** ** Facts about the module *)

Lemma digest_length (msg : bytes) : length (SHA256.digest msg) = 32%nat.
Proof. reflexivity. Qed.

Lemma hmac_length (k msg : bytes) : length (HMAC.hmac_sha256 k msg) = 32%nat.
Proof. apply digest_length. Qed.

(** Thirty-two bytes encode to forty-three digits and one '='. *)
Lemma b64encode_32 (b : bytes) :
  length b = 32%nat ->
  exists body,
    urlsafe_b64encode b = body ++ [b64_pad]
    /\ length body = 43%nat
    /\ Forall (fun x => is_b64url (ascii_of_byte x) = true) body.
Proof.
  intros Hlen.
  do 32 (destruct b as [|? b]; [discriminate Hlen|]).
  destruct b; [clear Hlen|discriminate Hlen].
  cbn [urlsafe_b64encode].
  match goal with
  | |- exists body, ?l = _ /\ _ => exists (removelast l)
  end.
  split; [reflexivity|].
  split; [reflexivity|].
  cbn [removelast]. repeat constructor; apply b64_digit_b64url.
Qed.

Lemma code_of_byte (x : byte) : code (ascii_of_byte x) = Z_of_byte x.
Proof. destruct x; reflexivity. Qed.

(** The base64 text is ascii, so its decoding never raises. *)
Lemma b64_digit_ascii (n : Z) : is_ascii_byte (b64_digit n) = true.
Proof.
  pose proof (b64url_ascii _ (b64_digit_b64url n)) as Hc.
  rewrite code_of_byte in Hc. exact Hc.
Qed.

Lemma b64encode_ascii (b : bytes) :
  forallb is_ascii_byte (urlsafe_b64encode b) = true.
Proof.
  enough (Hn : forall n b, (length b <= n)%nat ->
                           forallb is_ascii_byte (urlsafe_b64encode b) = true)
    by (apply (Hn (length b)); apply Nat.le_refl).
  clear b. induction n as [|n IH]; intros [|x [|y [|z rest]]] Hlen;
    cbn [urlsafe_b64encode forallb]; rewrite ?b64_digit_ascii;
    try reflexivity; simpl in Hlen; try lia.
  apply IH. lia.
Qed.

Lemma base64_encode_bytes (b : bytes) :
  _base64_encode (KBytes b)
  = Ok (rstrip (lit "=") (text_of (urlsafe_b64encode b))).
Proof.
  unfold _base64_encode, ascii_decode. cbn [_ensure_bytes].
  now rewrite b64encode_ascii.
Qed.

Lemma text_of_app (a b : bytes) :
  text_of (a ++ b) = text_of a ++ text_of b.
Proof. apply map_app. Qed.

(** The signature of a present key: forty-three url-safe characters. *)
Lemma expected_signature_shape (k : bytes) (base_id : str) :
  length (expected_signature k base_id) = 43%nat
  /\ forallb is_b64url (expected_signature k base_id) = true.
Proof.
  unfold expected_signature.
  destruct (b64encode_32 _ (hmac_length k (utf8_encode base_id)))
    as (body & -> & Hlen & Hall).
  rewrite text_of_app. change (text_of [b64_pad]) with ["="%char].
  assert (Hurl : Forall (fun c => is_b64url c = true) (text_of body)).
  { unfold text_of. apply Forall_map. exact Hall. }
  rewrite rstrip_snoc. change (mem "=" (lit "=")) with true. cbv iota.
  rewrite rstrip_keeps.
  - split.
    + unfold text_of. now rewrite length_map.
    + now apply forallb_forall, Forall_forall.
  - eapply Forall_impl; [|exact Hurl]. apply b64url_not_pad.
Qed.

Lemma expected_signature_ascii (k : bytes) (base_id : str) :
  is_ascii (expected_signature k base_id) = true.
Proof.
  apply forallb_forall. intros c Hc. apply b64url_ascii.
  exact (proj1 (forallb_forall _ _) (proj2 (expected_signature_shape k base_id)) c Hc).
Qed.

Lemma expected_signature_no_pad (k : bytes) (base_id : str) :
  ~ In "="%char (expected_signature k base_id).
Proof.
  intros Hin.
  pose proof (proj1 (forallb_forall _ _)
                (proj2 (expected_signature_shape k base_id)) _ Hin) as Hc.
  discriminate Hc.
Qed.

(** The code's signature is the one the specification describes. *)
Lemma expected_signature_spec (k : bytes) (base_id : str) :
  expected_signature k base_id = spec_signature k base_id.
Proof. apply rstrip_pad_spec. Qed.

Lemma ensure_bytes_key_of (k : key) :
  _ensure_bytes (key_of (_ensure_bytes k)) = _ensure_bytes k.
Proof. destruct k; reflexivity. Qed.

Lemma extends_refl {G} (w : World G) : extends w [] w.
Proof. split; [reflexivity|]. now rewrite app_nil_r. Qed.

Lemma extends_trans {G} (w1 w2 w3 : World G) (e1 e2 : list event) :
  extends w1 e1 w2 -> extends w2 e2 w3 -> extends w1 (e1 ++ e2) w3.
Proof.
  intros [U1 T1] [U2 T2]. split; [congruence|].
  now rewrite T2, T1, app_assoc.
Qed.

Section Runs.

Context {G : Type} `{Random G}.

Lemma signature_run (base_id : str) (k : key) (kb : bytes) (w : World G) :
  _ensure_bytes k = Some kb ->
  _signature base_id k w
  = (Ok (expected_signature kb base_id),
     record (Signed kb (utf8_encode base_id)) w).
Proof.
  intros Hk. unfold _signature. rewrite Hk.
  unfold hmac_digest, bind, log, ret, lift. now rewrite base64_encode_bytes.
Qed.

Lemma signature_absent (base_id : str) (k : key) (w : World G) :
  _ensure_bytes k = None ->
  _signature base_id k w = (Raise TypeError, w).
Proof. intros Hk. unfold _signature. rewrite Hk. reflexivity. Qed.

Lemma random_choice_run (c : ascii) (cs : str) (w : World G) :
  exists x i w',
    random_choice (c :: cs) w = (Ok x, w')
    /\ In x (c :: cs)
    /\ extends w [Drawn i] w'.
Proof.
  unfold random_choice.
  pose proof (randbelow_lt (random w) (length (c :: cs))
                (Nat.lt_0_succ _)) as Hlt.
  destruct (randbelow (random w) (length (c :: cs))) as [i g].
  simpl fst in Hlt.
  destruct (nth_error (c :: cs) i) as [x|] eqn:E.
  - exists x, i. eexists. split; [reflexivity|].
    split; [eapply nth_error_In; exact E|]. split; reflexivity.
  - apply nth_error_None in E. lia.
Qed.

Lemma join_choices_run (n : nat) (c : ascii) (cs : str) (w : World G) :
  exists s idxs w',
    join_choices n (c :: cs) w = (Ok s, w')
    /\ length s = n
    /\ Forall (fun x => In x (c :: cs)) s
    /\ length idxs = n
    /\ extends w (map Drawn idxs) w'.
Proof.
  revert w. induction n as [|n IH]; intros w.
  - exists [], [], w. repeat split; try reflexivity; auto.
    simpl. now rewrite app_nil_r.
  - destruct (random_choice_run c cs w) as (x & i & w1 & E1 & Hx & X1).
    destruct (IH w1) as (s & idxs & w2 & E2 & Hs & Hall & Hi & X2).
    exists (x :: s), (i :: idxs), w2.
    cbn [join_choices]. unfold bind at 1. rewrite E1.
    unfold bind at 1. rewrite E2.
    split; [reflexivity|]. split; [simpl; congruence|].
    split; [now constructor|]. split; [simpl; congruence|].
    exact (extends_trans _ _ _ [Drawn i] _ X1 X2).
Qed.

Lemma reseed_run (k : key) (w : World G) :
  exists w',
    _reseed_if_needed (using_sysrandom w) k w = (Ok tt, w')
    /\ extends w (reseed_events w k) w'.
Proof.
  unfold _reseed_if_needed, reseed_events.
  destruct (using_sysrandom w) eqn:U; cbn [negb].
  - exists w. split; [reflexivity|apply extends_refl].
  - unfold bind, random_getstate, time_time, random_seed. rewrite U.
    cbn [using_sysrandom]. rewrite U.
    eexists. split; [reflexivity|].
    split; [cbn [using_sysrandom]; now rewrite U|reflexivity].
Qed.

Lemma get_random_string_run (n : Z) (c : ascii) (cs : str) (k : key)
      (w : World G) :
  exists s idxs w',
    _get_random_string n (c :: cs) k w = (Ok s, w')
    /\ length s = Z.to_nat n
    /\ Forall (fun x => In x (c :: cs)) s
    /\ length idxs = Z.to_nat n
    /\ extends w (reseed_events w k ++ map Drawn idxs) w'.
Proof.
  unfold _get_random_string.
  destruct (reseed_run (key_of (_ensure_bytes k)) w) as (w1 & E1 & X1).
  destruct (join_choices_run (Z.to_nat n) c cs w1)
    as (s & idxs & w2 & E2 & Hs & Hall & Hi & X2).
  exists s, idxs, w2.
  unfold bind at 1. unfold get_using_sysrandom.
  unfold bind at 1. rewrite E1, E2.
  repeat (split; [assumption || reflexivity|]).
  unfold reseed_events, reseed_digest in *.
  rewrite ensure_bytes_key_of in X1.
  exact (extends_trans _ _ _ _ _ X1 X2).
Qed.

(** With the default arguments: forty-four alphanumeric characters. *)
Lemma base_id_run (k : key) (w : World G) :
  exists s idxs w',
    _get_random_string default_length default_allowed_chars k w = (Ok s, w')
    /\ re_unsigned 44 s = true
    /\ length idxs = 44%nat
    /\ extends w (reseed_events w k ++ map Drawn idxs) w'.
Proof.
  destruct (get_random_string_run default_length "a"
              (tl default_allowed_chars) k w)
    as (s & idxs & w' & E & Hs & Hall & Hi & X).
  exists s, idxs, w'. split; [exact E|]. split; [|split; assumption].
  unfold re_unsigned. rewrite Hs. apply andb_true_intro. split; [reflexivity|].
  apply forallb_forall. intros x Hx.
  apply (proj1 (forallb_forall _ _) default_chars_alnum).
  exact (proj1 (Forall_forall _ _) Hall x Hx).
Qed.

End Runs.

Lemma firstn_length_app {A} (a b : list A) : firstn (length a) (a ++ b) = a.
Proof. induction a; simpl; congruence. Qed.

Lemma skipn_length_app {A} (a b : list A) : skipn (length a) (a ++ b) = b.
Proof. induction a; simpl; congruence. Qed.

Lemma re_unsigned_no_dash (L : nat) (s : str) :
  re_unsigned L s = true -> ~ In "-"%char s.
Proof.
  unfold re_unsigned. intros Hs Hin.
  apply andb_prop in Hs. destruct Hs as [_ Hall].
  exact (alnum_not_dash _ (proj1 (forallb_forall _ _) Hall _ Hin) eq_refl).
Qed.

Lemma re_signed_join (L : nat) (base sig : str) :
  re_unsigned L base = true ->
  sig <> [] ->
  forallb is_b64url sig = true ->
  re_signed L (base ++ lit "-" ++ sig) = true.
Proof.
  intros Hb Hne Hs. unfold re_signed.
  assert (HL : length base = L).
  { unfold re_unsigned in Hb. apply andb_prop in Hb.
    now apply Nat.eqb_eq. }
  subst L. rewrite firstn_length_app, skipn_length_app, Hb.
  destruct sig as [|c rest]; [congruence|]. exact Hs.
Qed.

Lemma count_draws (evs : list event) (idxs : list nat) :
  Forall (fun e => is_draw e = false) evs ->
  length (filter is_draw (evs ++ map Drawn idxs)) = length idxs.
Proof.
  intros Hevs. rewrite filter_app, length_app.
  replace (filter is_draw evs) with (@nil event).
  - simpl. induction idxs; simpl; congruence.
  - induction Hevs as [|e evs He _ IH]; simpl; [reflexivity|now rewrite He].
Qed.

Lemma count_reseeds (evs : list event) (idxs : list nat) :
  length (filter is_reseed (evs ++ map Drawn idxs))
  = length (filter is_reseed evs).
Proof.
  rewrite filter_app, length_app.
  replace (filter is_reseed (map Drawn idxs)) with (@nil event); [apply Nat.add_0_r|].
  induction idxs; simpl; congruence.
Qed.

Section Properties.

Context {G : Type} `{Random G}.

(** A signed check of a token that has a '-' recomputes the signature of
    the part before the first '-' and compares it with the part after. *)
Lemma check_signed_run (base rest : str) (k : key) (kb : bytes) (w : World G) :
  ~ In "-"%char base ->
  _ensure_bytes k = Some kb ->
  check_session_id_signature (base ++ "-"%char :: rest) k true w
  = (compare_digest (expected_signature kb base) rest,
     record (Signed kb (utf8_encode base)) w).
Proof.
  intros Hb Hk. unfold check_session_id_signature.
  rewrite (split1_first _ _ _ Hb). unfold bind.
  rewrite (signature_run base (key_of (_ensure_bytes k)) kb)
    by (now rewrite ensure_bytes_key_of).
  reflexivity.
Qed.

(** A signed generation with a present key: the base identifier, a '-',
    and the signature of the base identifier. *)
Lemma generate_signed_run (k : key) (kb : bytes) (w : World G) :
  _ensure_bytes k = Some kb ->
  exists base w',
    generate_session_id k true w
    = (Ok (base ++ lit "-" ++ expected_signature kb base), w')
    /\ re_unsigned 44 base = true.
Proof.
  intros Hk. unfold generate_session_id.
  destruct (base_id_run (key_of (_ensure_bytes k)) w)
    as (base & idxs & w1 & E & Hb & _ & _).
  exists base. eexists. unfold bind at 1. rewrite E.
  unfold bind at 1.
  rewrite (signature_run base (key_of (_ensure_bytes k)) kb)
    by (now rewrite ensure_bytes_key_of).
  split; [reflexivity|exact Hb].
Qed.

(** Where the part after the first '-' is not ascii, [compare_digest]
    raises and the check returns no boolean. *)
Lemma check_non_ascii_raises (base rest : str) (k : key) (kb : bytes)
      (w : World G) :
  ~ In "-"%char base ->
  _ensure_bytes k = Some kb ->
  is_ascii rest = false ->
  fst (check_session_id_signature (base ++ "-"%char :: rest) k true w)
  = Raise TypeError.
Proof.
  intros Hb Hk Hr. rewrite (check_signed_run base rest k kb w Hb Hk).
  cbn [fst]. unfold compare_digest. rewrite Hr. now rewrite andb_false_r.
Qed.

(** A token without '-' is refused before the key is looked at. *)
Lemma check_no_dash (tok : str) (k : key) (w : World G) :
  ~ In "-"%char tok ->
  check_session_id_signature tok k true w = (Ok false, w).
Proof.
  intros Hno. unfold check_session_id_signature.
  now rewrite (split1_absent _ _ Hno).
Qed.

Lemma generate_unsigned_ok (k : key) (w : World G) :
  exists tok w',
    generate_session_id k false w = (Ok tok, w')
    /\ re_unsigned 44 tok = true.
Proof.
  unfold generate_session_id.
  destruct (base_id_run (key_of (_ensure_bytes k)) w)
    as (base & idxs & w1 & E & Hb & _ & _).
  now exists base, w1.
Qed.

End Properties.

(** ** The properties of the module *)

(** C1. Round trip: for a key and a signed flag such that the key is
    present whenever signing is requested, [generate_session_id] returns a
    token, and [check_session_id_signature] on that token with the same key
    and flag returns [True], whatever the state of the process at the
    check. *)
Theorem roundtrip {G : Type} `{Random G}
  (w : World G) (k : key) (signed : bool) :
  (signed = true -> _ensure_bytes k <> None) ->
  exists tok w1,
    generate_session_id k signed w = (Ok tok, w1)
    /\ forall w2 : World G,
        fst (check_session_id_signature tok k signed w2) = Ok true.
Proof.
  intros Hvalid. destruct signed.
  - destruct (_ensure_bytes k) as [kb|] eqn:Hk;
      [clear Hvalid|now exfalso; apply Hvalid].
    destruct (generate_signed_run k kb w Hk) as (base & w1 & E & Hb).
    exists (base ++ lit "-" ++ expected_signature kb base), w1.
    split; [exact E|]. intros w2.
    change (base ++ lit "-" ++ expected_signature kb base)
      with (base ++ "-"%char :: expected_signature kb base).
    rewrite (check_signed_run base _ k kb w2 (re_unsigned_no_dash _ _ Hb) Hk).
    cbn [fst].
    now apply compare_digest_true; [apply expected_signature_ascii|].
  - destruct (generate_unsigned_ok k w) as (tok & w1 & E & _).
    exists tok, w1. split; [exact E|]. reflexivity.
Qed.

Lemma roundtrip_witness :
  exists tok w1,
    generate_session_id (KBytes topsecret) true (world0 false) = (Ok tok, w1)
    /\ forall w2 : World nat,
        fst (check_session_id_signature tok (KBytes topsecret) true w2)
        = Ok true.
Proof.
  apply (roundtrip (world0 false) (KBytes topsecret) true).
  intros _. simpl. discriminate.
Defined.

(** C2. With the key b"topsecret" and signing on, the token splits at its
    first '-' into a base identifier and a signature, and the signature is
    the url-safe base64 text of the hmac-sha256 digest, under that key, of
    the utf-8 bytes of the base identifier, without its trailing '='
    characters. *)
Theorem topsecret_signature {G : Type} `{Random G} (w : World G) :
  exists tok w' base sig,
    generate_session_id (KBytes topsecret) true w = (Ok tok, w')
    /\ split1 "-" tok = [base; sig]
    /\ sig = spec_signature topsecret base.
Proof.
  destruct (generate_signed_run (KBytes topsecret) topsecret w eq_refl)
    as (base & w' & E & Hb).
  exists (base ++ lit "-" ++ expected_signature topsecret base), w', base,
    (expected_signature topsecret base).
  split; [exact E|]. split.
  - apply (split1_first "-" base). exact (re_unsigned_no_dash _ _ Hb).
  - apply expected_signature_spec.
Qed.

(** C3. Signed check with a present key: a token without '-' gives
    [False]; a token cut at its first '-' into [base] and [rest] gives
    [True] exactly when the signature recomputed over [base] is [rest]. *)
Theorem check_first_split {G : Type} `{Random G}
  (w : World G) (tok : str) (k : key) (kb : bytes) :
  _ensure_bytes k = Some kb ->
  (~ In "-"%char tok ->
   check_session_id_signature tok k true w = (Ok false, w))
  /\ (forall base rest,
        tok = base ++ "-"%char :: rest ->
        ~ In "-"%char base ->
        (fst (check_session_id_signature tok k true w) = Ok true
         <-> fst (_signature base k w) = Ok rest)).
Proof.
  intros Hk. split.
  - apply check_no_dash.
  - intros base rest -> Hb.
    rewrite (check_signed_run base rest k kb w Hb Hk).
    rewrite (signature_run base k kb w Hk). cbn [fst].
    rewrite (compare_digest_true _ rest (expected_signature_ascii kb base)).
    split; [intros ->; reflexivity|intros E; now injection E].
Qed.

Lemma check_first_split_witness :
  check_session_id_signature (lit "abc") (KBytes topsecret) true (world0 true)
  = (Ok false, world0 true)
  /\ (fst (check_session_id_signature
            (lit "abc-7KWrZJNRfUYjre42LIt5mgyKniO4QsioZ45eHXnp2tg")
            (KBytes topsecret) true (world0 true)) = Ok true
      <-> fst (_signature (lit "abc") (KBytes topsecret) (world0 true))
          = Ok (lit "7KWrZJNRfUYjre42LIt5mgyKniO4QsioZ45eHXnp2tg")).
Proof.
  split.
  - apply (proj1 (check_first_split (world0 true) (lit "abc")
             (KBytes topsecret) topsecret eq_refl)).
    simpl. intros Hin. repeat (destruct Hin as [Hin|Hin]; [discriminate Hin|]).
    exact Hin.
  - apply (proj2 (check_first_split (world0 true)
             (lit "abc-7KWrZJNRfUYjre42LIt5mgyKniO4QsioZ45eHXnp2tg")
             (KBytes topsecret) topsecret eq_refl) (lit "abc")).
    + reflexivity.
    + simpl. intros Hin.
      repeat (destruct Hin as [Hin|Hin]; [discriminate Hin|]).
      exact Hin.
Defined.

(** C4. Signing requested without a key: [generate_session_id] raises (the
    [TypeError] of [hmac.new]) and returns no token. *)
Theorem generate_absent_key_raises {G : Type} `{Random G} (w : World G) :
  (exists w', generate_session_id KNone true w = (Raise TypeError, w'))
  /\ forall tok w', generate_session_id KNone true w <> (Ok tok, w').
Proof.
  assert (E : exists w', generate_session_id KNone true w = (Raise TypeError, w')).
  { unfold generate_session_id.
    destruct (base_id_run (key_of (_ensure_bytes KNone)) w)
      as (base & idxs & w1 & E & _).
    exists w1. unfold bind at 1. rewrite E. reflexivity. }
  split; [exact E|].
  destruct E as (w1 & E). intros tok w'. rewrite E. discriminate.
Qed.

(** C5, as stated, fails: on the fallback generator the forty-four draws
    of a base identifier follow one single re-seed, so a draw is not
    preceded by a re-seed of its own. *)
Lemma reseed_per_draw_fails :
  let w' := snd (_get_random_string default_length default_allowed_chars
                                    KNone (world0 false)) in
  reseed_before_each_draw false (trace w') = false
  /\ length (filter is_reseed (trace w')) = 1%nat
  /\ length (filter is_draw (trace w')) = 44%nat.
Proof. vm_compute. repeat split. Qed.

(** C5, amended. [_get_random_string] re-seeds once per string and only on
    the fallback generator: its events are the re-seed (none on the system
    generator) followed by one draw per character. *)
Theorem reseed_once_per_string {G : Type} `{Random G}
  (w : World G) (n : Z) (c : ascii) (cs : str) (k : key) :
  exists s idxs w',
    _get_random_string n (c :: cs) k w = (Ok s, w')
    /\ length idxs = Z.to_nat n
    /\ trace w' = trace w ++ reseed_events w k ++ map Drawn idxs
    /\ length (filter is_reseed (reseed_events w k ++ map Drawn idxs))
       = (if using_sysrandom w then 0 else 1)%nat
    /\ length (filter is_draw (reseed_events w k ++ map Drawn idxs))
       = Z.to_nat n.
Proof.
  destruct (get_random_string_run n c cs k w)
    as (s & idxs & w' & E & _ & _ & Hi & _ & T).
  exists s, idxs, w'. split; [exact E|]. split; [exact Hi|].
  split; [exact T|]. split.
  - rewrite count_reseeds. unfold reseed_events.
    now destruct (using_sysrandom w).
  - rewrite count_draws; [exact Hi|]. unfold reseed_events.
    destruct (using_sysrandom w); repeat constructor.
Qed.

(** C7. For a present key, an unsigned token matches
    [^[A-Za-z0-9]{44}$]; a signed token matches
    [^[A-Za-z0-9]{44}-[A-Za-z0-9_-]+$], and its part after the first '-'
    has no '=' and is forty-three characters long; the signature of any
    base identifier under any present key has that length. *)
Theorem token_format {G : Type} `{Random G}
  (w : World G) (k : key) (kb : bytes) :
  _ensure_bytes k = Some kb ->
  (exists tok w',
      generate_session_id k false w = (Ok tok, w')
      /\ re_unsigned 44 tok = true)
  /\ (exists tok w' base sig,
         generate_session_id k true w = (Ok tok, w')
         /\ re_signed 44 tok = true
         /\ split1 "-" tok = [base; sig]
         /\ ~ In "="%char sig
         /\ length sig = 43%nat)
  /\ (forall (k' : key) (kb' : bytes) (base' : str) (w' : World G),
         _ensure_bytes k' = Some kb' ->
         exists sig',
           fst (_signature base' k' w') = Ok sig' /\ length sig' = 43%nat).
Proof.
  intros Hk. split; [apply generate_unsigned_ok|]. split.
  - destruct (generate_signed_run k kb w Hk) as (base & w' & E & Hb).
    destruct (expected_signature_shape kb base) as [Hlen Hurl].
    exists (base ++ lit "-" ++ expected_signature kb base), w', base,
      (expected_signature kb base).
    split; [exact E|]. split.
    { apply re_signed_join; [exact Hb| |exact Hurl].
      intros Hnil. rewrite Hnil in Hlen. discriminate Hlen. }
    split; [apply (split1_first "-" base), (re_unsigned_no_dash _ _ Hb)|].
    split; [apply expected_signature_no_pad|exact Hlen].
  - intros k' kb' base' w' Hk'. exists (expected_signature kb' base').
    rewrite (signature_run base' k' kb' w' Hk').
    split; [reflexivity|apply expected_signature_shape].
Qed.

Lemma token_format_witness :
  exists tok w' base sig,
    generate_session_id (KStr (lit "topsecret")) true (world0 true)
    = (Ok tok, w')
    /\ re_signed 44 tok = true
    /\ split1 "-" tok = [base; sig]
    /\ ~ In "="%char sig
    /\ length sig = 43%nat.
Proof.
  apply (token_format (world0 true) (KStr (lit "topsecret")) topsecret).
  reflexivity.
Defined.

(** C10. Signed check without a key: a token that has a '-' makes the check
    raise (the [TypeError] of [hmac.new]); no boolean is returned. *)
Theorem check_absent_key_raises {G : Type} `{Random G}
  (w : World G) (tok : str) :
  In "-"%char tok ->
  check_session_id_signature tok KNone true w = (Raise TypeError, w).
Proof.
  intros Hin.
  destruct (first_occurrence "-" tok) as [Hno|(a & b & -> & Ha)];
    [contradiction|].
  unfold check_session_id_signature.
  rewrite (split1_first _ _ _ Ha). reflexivity.
Qed.

Lemma check_absent_key_raises_witness :
  check_session_id_signature (lit "abc-def-ghi") KNone true (world0 true)
  = (Raise TypeError, world0 true).
Proof.
  apply (check_absent_key_raises (world0 true) (lit "abc-def-ghi")).
  simpl. tauto.
Defined.

(** ** Further properties of the module *)

Lemma advanced_refl {G} (w : World G) : advanced w 0 [] w.
Proof.
  repeat split; [now rewrite Nat.add_0_r|now rewrite app_nil_r].
Qed.

Lemma advanced_trans {G} (w1 w2 w3 : World G) (t1 t2 : nat)
      (e1 e2 : list event) :
  advanced w1 t1 e1 w2 -> advanced w2 t2 e2 w3 ->
  advanced w1 (t1 + t2) (e1 ++ e2) w3.
Proof.
  intros (U1 & C1 & K1 & T1) (U2 & C2 & K2 & T2).
  repeat split; try congruence.
  - rewrite K2, K1. apply eq_sym, Nat.add_assoc.
  - now rewrite T2, T1, app_assoc.
Qed.

Section Effects.

Context {G : Type} `{Random G}.

Lemma random_choice_adv (c : ascii) (cs : str) (w : World G) :
  exists x i w',
    random_choice (c :: cs) w = (Ok x, w')
    /\ In x (c :: cs)
    /\ advanced w 0 [Drawn i] w'.
Proof.
  unfold random_choice.
  pose proof (randbelow_lt (random w) (length (c :: cs))
                (Nat.lt_0_succ _)) as Hlt.
  destruct (randbelow (random w) (length (c :: cs))) as [i g].
  simpl fst in Hlt.
  destruct (nth_error (c :: cs) i) as [x|] eqn:E.
  - exists x, i. eexists. split; [reflexivity|].
    split; [eapply nth_error_In; exact E|].
    repeat split. cbn [ticks]. now rewrite Nat.add_0_r.
  - apply nth_error_None in E. lia.
Qed.

Lemma join_choices_adv (n : nat) (c : ascii) (cs : str) (w : World G) :
  exists s idxs w',
    join_choices n (c :: cs) w = (Ok s, w')
    /\ length s = n
    /\ Forall (fun x => In x (c :: cs)) s
    /\ length idxs = n
    /\ advanced w 0 (map Drawn idxs) w'.
Proof.
  revert w. induction n as [|n IH]; intros w.
  - exists [], [], w. repeat (split; [reflexivity || constructor|]).
    apply advanced_refl.
  - destruct (random_choice_adv c cs w) as (x & i & w1 & E1 & Hx & X1).
    destruct (IH w1) as (s & idxs & w2 & E2 & Hs & Hall & Hi & X2).
    exists (x :: s), (i :: idxs), w2.
    cbn [join_choices]. unfold bind at 1. rewrite E1.
    unfold bind at 1. rewrite E2.
    split; [reflexivity|]. split; [simpl; congruence|].
    split; [now constructor|]. split; [simpl; congruence|].
    exact (advanced_trans _ _ _ 0 0 [Drawn i] _ X1 X2).
Qed.

Lemma reseed_adv (k : key) (w : World G) :
  exists w',
    _reseed_if_needed (using_sysrandom w) k w = (Ok tt, w')
    /\ advanced w (reseed_ticks w) (reseed_events w k) w'.
Proof.
  unfold _reseed_if_needed, reseed_events, reseed_ticks.
  destruct (using_sysrandom w) eqn:U; cbn [negb].
  - exists w. split; [reflexivity|apply advanced_refl].
  - unfold bind, random_getstate, time_time, random_seed. rewrite U.
    cbn [using_sysrandom]. rewrite U.
    eexists. split; [reflexivity|].
    repeat split; cbn [using_sysrandom ticks]; [now rewrite U|].
    apply eq_sym, Nat.add_1_r.
Qed.

(** The run of [_get_random_string] up to the character loop. *)
Lemma get_random_string_unfold (n : Z) (chars : str) (k : key) (w : World G) :
  exists w1,
    advanced w (reseed_ticks w) (reseed_events w k) w1
    /\ _get_random_string n chars k w = join_choices (Z.to_nat n) chars w1.
Proof.
  destruct (reseed_adv (key_of (_ensure_bytes k)) w) as (w1 & E1 & X1).
  exists w1. split.
  - unfold reseed_events, reseed_digest in *.
    now rewrite ensure_bytes_key_of in X1.
  - unfold _get_random_string. unfold bind at 1. unfold get_using_sysrandom.
    unfold bind at 1. now rewrite E1.
Qed.

Lemma get_random_string_adv (n : Z) (c : ascii) (cs : str) (k : key)
      (w : World G) :
  exists s idxs w',
    _get_random_string n (c :: cs) k w = (Ok s, w')
    /\ length s = Z.to_nat n
    /\ Forall (fun x => In x (c :: cs)) s
    /\ length idxs = Z.to_nat n
    /\ advanced w (reseed_ticks w) (reseed_events w k ++ map Drawn idxs) w'.
Proof.
  destruct (get_random_string_unfold n (c :: cs) k w) as (w1 & X1 & E).
  destruct (join_choices_adv (Z.to_nat n) c cs w1)
    as (s & idxs & w2 & E2 & Hs & Hall & Hi & X2).
  exists s, idxs, w2. rewrite E, E2.
  repeat (split; [assumption || reflexivity|]).
  rewrite <- (Nat.add_0_r (reseed_ticks w)).
  exact (advanced_trans _ _ _ _ _ _ _ X1 X2).
Qed.

(** Signing after the base identifier: the token of a signed generation
    from the run of its random string. *)
Lemma generate_signed_from (k : key) (kb : bytes) (base : str)
      (w w1 : World G) :
  _ensure_bytes k = Some kb ->
  _get_random_string default_length default_allowed_chars
                     (key_of (_ensure_bytes k)) w = (Ok base, w1) ->
  generate_session_id k true w
  = (Ok (base ++ lit "-" ++ expected_signature kb base),
     record (Signed kb (utf8_encode base)) w1).
Proof.
  intros Hk E. unfold generate_session_id. unfold bind at 1. rewrite E.
  unfold bind at 1.
  rewrite (signature_run base (key_of (_ensure_bytes k)) kb)
    by (now rewrite ensure_bytes_key_of).
  reflexivity.
Qed.

Lemma reseed_events_key_of (k : key) (w : World G) :
  reseed_events w (key_of (_ensure_bytes k)) = reseed_events w k.
Proof.
  unfold reseed_events, reseed_digest. now rewrite ensure_bytes_key_of.
Qed.

End Effects.

Lemma advanced_record {G} `{Random G} (w w1 : World G) (t : nat)
      (evs : list event) (e : event) :
  advanced w t evs w1 -> advanced w t (evs ++ [e]) (record e w1).
Proof.
  intros (U & C & K & T). repeat split; cbn; try assumption.
  now rewrite T, app_assoc.
Qed.

(** X1. [_get_random_string] over a non-empty alphabet returns
    [max(0, length)] characters, each one of the alphabet; it never changes
    the randomness source in use nor the clock, and reads the clock once
    on the fallback generator and not at all on the system generator. *)
Theorem random_string_from_alphabet {G : Type} `{Random G}
  (w : World G) (n : Z) (c : ascii) (cs : str) (k : key) :
  exists s w',
    _get_random_string n (c :: cs) k w = (Ok s, w')
    /\ Z.of_nat (length s) = Z.max 0 n
    /\ Forall (fun x => In x (c :: cs)) s
    /\ using_sysrandom w' = using_sysrandom w
    /\ clock w' = clock w
    /\ ticks w' = (ticks w + if using_sysrandom w then 0 else 1)%nat.
Proof.
  destruct (get_random_string_adv n c cs k w)
    as (s & idxs & w' & E & Hs & Hall & _ & U & C & K & _).
  exists s, w'. split; [exact E|]. split; [rewrite Hs; lia|].
  repeat (split; [assumption|]). exact K.
Qed.

(** X2. [_get_random_string] over the empty alphabet: an [IndexError] when
    a positive length is asked, the empty string otherwise; either way the
    fallback generator has been re-seeded first and nothing was drawn. *)
Theorem random_string_empty_alphabet {G : Type} `{Random G}
  (w : World G) (n : Z) (k : key) :
  fst (_get_random_string n [] k w)
  = (if 0 <? n then Raise IndexError else Ok [])
  /\ trace (snd (_get_random_string n [] k w)) = trace w ++ reseed_events w k.
Proof.
  destruct (get_random_string_unfold n [] k w) as (w1 & (_ & _ & _ & T) & E).
  rewrite E. destruct n as [|p|p]; cbn [Z.ltb Z.compare Z.to_nat].
  - split; [reflexivity|exact T].
  - destruct (Pos2Nat.is_succ p) as [m ->].
    split; [reflexivity|exact T].
  - split; [reflexivity|exact T].
Qed.

(** X3. What [generate_session_id] returns and does, for every key and
    flag: with [base] the token of the unsigned call from the same state,
    the signed call returns [base], '-' and the signature of [base] (a
    [TypeError] without a key); the call keeps the randomness source and
    the clock, reads the clock only for the re-seed, and its events are the
    re-seed, forty-four draws and, when it signs, one hmac at the end. *)
Theorem generate_effects {G : Type} `{Random G}
  (w : World G) (k : key) (signed : bool) :
  exists base idxs,
    fst (generate_session_id k false w) = Ok base
    /\ fst (generate_session_id k signed w)
       = match signed, _ensure_bytes k with
         | false, _ => Ok base
         | true, Some kb => Ok (base ++ lit "-" ++ spec_signature kb base)
         | true, None => Raise TypeError
         end
    /\ length idxs = 44%nat
    /\ advanced w (reseed_ticks w)
         (reseed_events w k ++ map Drawn idxs
          ++ sign_events signed (_ensure_bytes k) base)
         (snd (generate_session_id k signed w)).
Proof.
  destruct (get_random_string_adv default_length "a"
              (tl default_allowed_chars) (key_of (_ensure_bytes k)) w)
    as (base & idxs & w1 & E & _ & _ & Hi & X).
  change ("a"%char :: tl default_allowed_chars)
    with default_allowed_chars in E.
  rewrite reseed_events_key_of in X.
  exists base, idxs.
  assert (E0 : generate_session_id k false w = (Ok base, w1)) by exact E.
  split; [now rewrite E0|].
  destruct signed.
  - destruct (_ensure_bytes k) as [kb|] eqn:Hk.
    + rewrite (generate_signed_from k kb base w w1 Hk)
        by (now rewrite Hk).
      cbn [fst snd sign_events]. rewrite expected_signature_spec.
      split; [reflexivity|]. split; [exact Hi|].
      rewrite app_assoc. apply advanced_record. exact X.
    + assert (E1 : generate_session_id k true w = (Raise TypeError, w1)).
      { unfold generate_session_id. rewrite Hk. unfold bind at 1.
        rewrite E. reflexivity. }
      rewrite E1. cbn [fst snd sign_events].
      split; [reflexivity|]. split; [exact Hi|].
      now rewrite app_nil_r.
  - rewrite E0. cbn [fst snd sign_events].
    split; [reflexivity|]. split; [exact Hi|].
    replace (sign_events false (_ensure_bytes k) base) with (@nil event)
      by reflexivity.
    now rewrite app_nil_r.
Qed.

(** X4. Signing without a key fails after the base identifier was drawn:
    the call raises and leaves the state that the unsigned call leaves, so
    the randomness of one identifier is used up without a token. *)
Theorem failed_signing_consumes_randomness {G : Type} `{Random G}
  (w : World G) :
  generate_session_id KNone true w
  = (Raise TypeError, snd (generate_session_id KNone false w))
  /\ exists idxs,
       length idxs = 44%nat
       /\ trace (snd (generate_session_id KNone true w))
          = trace w ++ reseed_events w KNone ++ map Drawn idxs.
Proof.
  destruct (get_random_string_adv default_length "a"
              (tl default_allowed_chars) KNone w)
    as (base & idxs & w1 & E & _ & _ & Hi & _ & _ & _ & T).
  change ("a"%char :: tl default_allowed_chars)
    with default_allowed_chars in E.
  assert (E0 : generate_session_id KNone false w = (Ok base, w1)) by exact E.
  assert (E1 : generate_session_id KNone true w = (Raise TypeError, w1)).
  { unfold generate_session_id. cbn [_ensure_bytes key_of].
    unfold bind at 1. rewrite E. reflexivity. }
  rewrite E1, E0. split; [reflexivity|].
  exists idxs. split; [exact Hi|exact T].
Qed.

(** X5. On the system generator the secret key has no part in the random
    string: two keys give the same string and the same state. *)
Theorem system_generator_ignores_key {G : Type} `{Random G}
  (w : World G) (n : Z) (chars : str) (k1 k2 : key) :
  using_sysrandom w = true ->
  _get_random_string n chars k1 w = _get_random_string n chars k2 w
  /\ generate_session_id k1 false w = generate_session_id k2 false w.
Proof.
  intros U.
  assert (E : forall m cs k k',
             _get_random_string m cs k w = _get_random_string m cs k' w).
  { intros m cs k k'. unfold _get_random_string, bind, get_using_sysrandom.
    rewrite U. reflexivity. }
  split; [apply E|]. unfold generate_session_id. apply E.
Qed.

Lemma system_generator_ignores_key_witness :
  _get_random_string 12 (lit "abc") KNone (world0 true)
  = _get_random_string 12 (lit "abc") (KStr (lit "topsecret")) (world0 true)
  /\ generate_session_id KNone false (world0 true)
     = generate_session_id (KStr (lit "topsecret")) false (world0 true).
Proof.
  apply (system_generator_ignores_key (world0 true) 12 (lit "abc") KNone
           (KStr (lit "topsecret"))).
  reflexivity.
Defined.

Section Checks.

Context {G : Type} `{Random G}.

(** The result of a signed check of a token cut at its first '-'. *)
Lemma check_signed_result (base rest : str) (k : key) (kb : bytes)
      (w : World G) :
  ~ In "-"%char base ->
  _ensure_bytes k = Some kb ->
  fst (check_session_id_signature (base ++ "-"%char :: rest) k true w)
  = if is_ascii rest then Ok (str_eqb (spec_signature kb base) rest)
    else Raise TypeError.
Proof.
  intros Hb Hk. rewrite (check_signed_run base rest k kb w Hb Hk).
  cbn [fst]. unfold compare_digest.
  rewrite expected_signature_ascii, expected_signature_spec. reflexivity.
Qed.

Lemma check_accepts (base : str) (k : key) (kb : bytes) (w : World G) :
  ~ In "-"%char base ->
  _ensure_bytes k = Some kb ->
  fst (check_session_id_signature
         (base ++ lit "-" ++ expected_signature kb base) k true w)
  = Ok true.
Proof.
  intros Hb Hk.
  change (base ++ lit "-" ++ expected_signature kb base)
    with (base ++ "-"%char :: expected_signature kb base).
  rewrite (check_signed_run base _ k kb w Hb Hk). cbn [fst].
  now apply compare_digest_true; [apply expected_signature_ascii|].
Qed.

(** A signed check with an absent key and a token that has a '-'. *)
Lemma check_absent_run (base rest : str) (k : key) (w : World G) :
  ~ In "-"%char base ->
  _ensure_bytes k = None ->
  check_session_id_signature (base ++ "-"%char :: rest) k true w
  = (Raise TypeError, w).
Proof.
  intros Hb Hk. unfold check_session_id_signature.
  rewrite (split1_first _ _ _ Hb), Hk. reflexivity.
Qed.

End Checks.

Lemma same_generator_refl {G} (w : World G) : same_generator w w.
Proof. repeat split. Qed.

(** X7. A base identifier that has a '-' can never be verified: the text
    made of such a base, '-' and the signature of that base is not accepted
    by the signed check, because the check cuts at the first '-'. *)
Theorem hyphen_in_base_rejected {G : Type} `{Random G}
  (w : World G) (base : str) (k : key) (kb : bytes) :
  In "-"%char base ->
  _ensure_bytes k = Some kb ->
  fst (check_session_id_signature
         (base ++ lit "-" ++ spec_signature kb base) k true w)
  <> Ok true.
Proof.
  intros Hin Hk.
  destruct (first_occurrence "-" base) as [Hno|(a & b & -> & Ha)];
    [contradiction|].
  change ((a ++ "-"%char :: b) ++ lit "-"
          ++ spec_signature kb (a ++ "-"%char :: b))
    with ((a ++ "-"%char :: b)
          ++ "-"%char :: spec_signature kb (a ++ "-"%char :: b)).
  rewrite <- app_assoc. cbn [app].
  rewrite (check_signed_result a _ k kb w Ha Hk).
  destruct (is_ascii _); [|discriminate].
  intros E. injection E as E. apply str_eqb_eq in E.
  apply (f_equal (@length ascii)) in E.
  rewrite length_app in E. cbn [length] in E.
  rewrite <- !expected_signature_spec in E.
  rewrite !(proj1 (expected_signature_shape kb _)) in E. lia.
Qed.

Lemma hyphen_in_base_rejected_witness :
  fst (check_session_id_signature
         (lit "ab-cd" ++ lit "-" ++ spec_signature topsecret (lit "ab-cd"))
         (KBytes topsecret) true (world0 true))
  <> Ok true.
Proof.
  apply (hyphen_in_base_rejected (world0 true) (lit "ab-cd")
           (KBytes topsecret) topsecret).
  - simpl. tauto.
  - reflexivity.
Defined.

(** X8. [check_session_id_signature] never touches the generator or the
    clock: whatever the token, key and flag, and whether it returns or
    raises, the state after it differs from the state before by at most
    one hmac event; and its outcome does not depend on the state. *)
Theorem check_leaves_generator {G : Type} `{Random G}
  (w : World G) (tok : str) (k : key) (signed : bool) :
  same_generator w (snd (check_session_id_signature tok k signed w))
  /\ (exists evs,
         trace (snd (check_session_id_signature tok k signed w))
         = trace w ++ evs
         /\ (length evs <= 1)%nat
         /\ forallb is_signed_event evs = true)
  /\ forall w2 : World G,
       fst (check_session_id_signature tok k signed w2)
       = fst (check_session_id_signature tok k signed w).
Proof.
  assert (Hnil : forall w0 : World G, trace w0 = trace w0 ++ [])
    by (intros; now rewrite app_nil_r).
  destruct signed.
  - destruct (first_occurrence "-" tok) as [Hno|(a & b & -> & Ha)].
    + split; [|split].
      * rewrite (check_no_dash tok k w Hno). apply same_generator_refl.
      * exists []. rewrite (check_no_dash tok k w Hno).
        repeat split; [apply Hnil|apply Nat.le_0_1].
      * intros w2. now rewrite !(check_no_dash tok k _ Hno).
    + destruct (_ensure_bytes k) as [kb|] eqn:Hk.
      * split; [|split].
        -- rewrite (check_signed_run a b k kb w Ha Hk). repeat split.
        -- exists [Signed kb (utf8_encode a)].
           rewrite (check_signed_run a b k kb w Ha Hk).
           repeat split. apply Nat.le_refl.
        -- intros w2. now rewrite !(check_signed_run a b k kb _ Ha Hk).
      * split; [|split].
        -- rewrite (check_absent_run a b k w Ha Hk).
           apply same_generator_refl.
        -- exists []. rewrite (check_absent_run a b k w Ha Hk).
           repeat split; [apply Hnil|apply Nat.le_0_1].
        -- intros w2. now rewrite !(check_absent_run a b k _ Ha Hk).
  - split; [|split].
    + apply same_generator_refl.
    + exists []. repeat split; [apply Hnil|apply Nat.le_0_1].
    + reflexivity.
Qed.

(** X9. A key from [generate_secret_key] is forty-four alphanumeric
    characters and works as a signing key: in any later state a signed
    generation under it returns a token, which the signed check under the
    same key accepts. *)
Theorem secret_key_usable {G : Type} `{Random G}
  (w : World G) (settings_key : option bytes) :
  exists sk w1,
    generate_secret_key settings_key w = (Ok sk, w1)
    /\ re_unsigned 44 sk = true
    /\ forall w2 : World G,
         exists tok w3,
           generate_session_id (KStr sk) true w2 = (Ok tok, w3)
           /\ forall w4 : World G,
                fst (check_session_id_signature tok (KStr sk) true w4)
                = Ok true.
Proof.
  destruct (base_id_run (key_of settings_key) w)
    as (sk & idxs & w1 & E & Hsk & _).
  exists sk, w1. split; [exact E|]. split; [exact Hsk|].
  intros w2.
  destruct (generate_signed_run (KStr sk) (utf8_encode sk) w2 eq_refl)
    as (base & w3 & E3 & Hb).
  exists (base ++ lit "-" ++ expected_signature (utf8_encode sk) base), w3.
  split; [exact E3|]. intros w4.
  apply check_accepts; [exact (re_unsigned_no_dash _ _ Hb)|reflexivity].
Qed.

(** X10. Keys with the same normal form are interchangeable across the two
    sides: a token generated under one key (a text, say) is accepted by the
    check under any key with the same bytes (its utf-8 bytes, say). *)
Theorem roundtrip_equivalent_keys {G : Type} `{Random G}
  (w : World G) (k1 k2 : key) (signed : bool) :
  _ensure_bytes k1 = _ensure_bytes k2 ->
  (signed = true -> _ensure_bytes k1 <> None) ->
  exists tok w1,
    generate_session_id k1 signed w = (Ok tok, w1)
    /\ forall w2 : World G,
         fst (check_session_id_signature tok k2 signed w2) = Ok true.
Proof.
  intros Heq Hvalid. destruct signed.
  - destruct (_ensure_bytes k1) as [kb|] eqn:Hk;
      [clear Hvalid|now exfalso; apply Hvalid].
    destruct (generate_signed_run k1 kb w Hk) as (base & w1 & E & Hb).
    exists (base ++ lit "-" ++ expected_signature kb base), w1.
    split; [exact E|]. intros w2.
    apply check_accepts; [exact (re_unsigned_no_dash _ _ Hb)|now symmetry].
  - destruct (generate_unsigned_ok k1 w) as (tok & w1 & E & _).
    exists tok, w1. split; [exact E|]. reflexivity.
Qed.

Lemma roundtrip_equivalent_keys_witness :
  exists tok w1,
    generate_session_id (KStr (lit "topsecret")) true (world0 false)
    = (Ok tok, w1)
    /\ forall w2 : World nat,
         fst (check_session_id_signature tok (KBytes topsecret) true w2)
         = Ok true.
Proof.
  apply (roundtrip_equivalent_keys (world0 false) (KStr (lit "topsecret"))
           (KBytes topsecret) true).
  - reflexivity.
  - intros _. simpl. discriminate.
Defined.

(** The shape of the base64 text of any bytes: the digits, then the '='
    characters. *)
Lemma b64encode_shape (b : bytes) :
  exists body p,
    urlsafe_b64encode b = body ++ repeat b64_pad p
    /\ length body = ((4 * length b + 2) / 3)%nat
    /\ Forall (fun x => is_b64url (ascii_of_byte x) = true) body.
Proof.
  enough (Hn : forall n b, (length b <= n)%nat ->
    exists body p,
      urlsafe_b64encode b = body ++ repeat b64_pad p
      /\ length body = ((4 * length b + 2) / 3)%nat
      /\ Forall (fun x => is_b64url (ascii_of_byte x) = true) body)
    by (apply (Hn (length b)); apply Nat.le_refl).
  clear b. induction n as [|n IH]; intros [|x [|y [|z rest]]] Hlen;
    simpl in Hlen; try lia.
  1, 2: exists [], 0%nat; repeat split; constructor.
  - eexists [_; _], 2%nat. split; [reflexivity|]. split; [reflexivity|].
    repeat constructor; apply b64_digit_b64url.
  - eexists [_; _; _], 1%nat. split; [reflexivity|]. split; [reflexivity|].
    repeat constructor; apply b64_digit_b64url.
  - destruct (IH rest ltac:(lia)) as (body & p & E & Hl & Hall).
    eexists (_ :: _ :: _ :: _ :: body), p.
    cbn [urlsafe_b64encode]. rewrite E. split; [reflexivity|]. split.
    + cbn [length]. rewrite Hl.
      replace (4 * S (S (S (length rest))) + 2)%nat
        with (4 * length rest + 2 + 4 * 3)%nat by lia.
      rewrite Nat.div_add by discriminate. lia.
    + repeat (constructor; [apply b64_digit_b64url|]). exact Hall.
Qed.

Lemma rstrip_pads (s : str) (p : nat) :
  Forall (fun c => mem c (lit "=") = false) s ->
  rstrip (lit "=") (s ++ repeat "="%char p) = s.
Proof.
  intros Hs. induction p as [|p IH].
  - rewrite app_nil_r. now apply rstrip_keeps.
  - cbn [repeat]. rewrite repeat_cons, app_assoc, rstrip_snoc. exact IH.
Qed.

Lemma same_signatures_same_results {G : Type} `{Random G}
      (k1 k2 : bytes) :
  (forall base, expected_signature k1 base = expected_signature k2 base) ->
  forall (w : World G),
    (forall base,
        fst (_signature base (KBytes k1) w) = fst (_signature base (KBytes k2) w))
    /\ (forall tok signed,
          fst (check_session_id_signature tok (KBytes k1) signed w)
          = fst (check_session_id_signature tok (KBytes k2) signed w)).
Proof.
  intros Hsig w. split.
  - intros base.
    rewrite (signature_run base (KBytes k1) k1 w eq_refl).
    rewrite (signature_run base (KBytes k2) k2 w eq_refl).
    cbn [fst]. now rewrite Hsig.
  - intros tok [|]; [|reflexivity].
    destruct (first_occurrence "-" tok) as [Hno|(a & b & -> & Ha)].
    + now rewrite !(check_no_dash tok _ w Hno).
    + rewrite (check_signed_run a b (KBytes k1) k1 w Ha eq_refl).
      rewrite (check_signed_run a b (KBytes k2) k2 w Ha eq_refl).
      cbn [fst]. now rewrite Hsig.
Qed.

Lemma block_key_trailing_zero (kb : bytes) :
  (length kb < 64)%nat ->
  HMAC.block_key (kb ++ [x00]) = HMAC.block_key kb.
Proof.
  intros Hlen. unfold HMAC.block_key, HMAC.block_size.
  rewrite length_app. cbn [length].
  destruct (Nat.ltb_spec 64 (length kb + 1)) as [Hlt|_]; [lia|].
  destruct (Nat.ltb_spec 64 (length kb)) as [Hlt|_]; [lia|].
  rewrite length_app. cbn [length]. rewrite <- app_assoc. f_equal.
  replace (64 - length kb)%nat with (S (64 - (length kb + 1))) by lia.
  reflexivity.
Qed.

Lemma block_key_long (kb : bytes) :
  (64 < length kb)%nat ->
  HMAC.block_key (SHA256.digest kb) = HMAC.block_key kb.
Proof.
  intros Hlen. unfold HMAC.block_key, HMAC.block_size.
  rewrite digest_length.
  destruct (Nat.ltb_spec 64 (length kb)) as [_|Hle]; [|lia].
  rewrite digest_length. reflexivity.
Qed.

(** X11. [_base64_encode]: a [TypeError] on [None]; on bytes, or on the
    utf-8 bytes of a text, a text of [ceil(4 n / 3)] characters for [n]
    bytes, all of them in [[A-Za-z0-9_-]]: no '=' is left, whatever the
    length. *)
Theorem base64_encode_general (decoded : key) :
  match _ensure_bytes decoded with
  | None => _base64_encode decoded = Raise TypeError
  | Some b =>
      exists s,
        _base64_encode decoded = Ok s
        /\ length s = ((4 * length b + 2) / 3)%nat
        /\ forallb is_b64url s = true
        /\ ~ In "="%char s
  end.
Proof.
  unfold _base64_encode. destruct (_ensure_bytes decoded) as [b|];
    [|reflexivity].
  unfold ascii_decode. rewrite b64encode_ascii.
  destruct (b64encode_shape b) as (body & p & -> & Hl & Hall).
  assert (Hurl : Forall (fun c => is_b64url c = true) (text_of body)).
  { unfold text_of. apply Forall_map. exact Hall. }
  exists (text_of body).
  rewrite text_of_app.
  replace (text_of (repeat b64_pad p)) with (repeat "="%char p)
    by (unfold text_of; now rewrite map_repeat).
  rewrite rstrip_pads
    by (eapply Forall_impl; [|exact Hurl]; apply b64url_not_pad).
  split; [reflexivity|]. split; [unfold text_of; now rewrite length_map|].
  split; [now apply forallb_forall, Forall_forall|].
  intros Hin. pose proof (proj1 (Forall_forall _ _) Hurl _ Hin) as Hc.
  discriminate Hc.
Qed.

(** X12. A key shorter than the hmac block counts without its trailing
    zero byte: the key and the key followed by one zero byte give the same
    signatures, so each accepts the tokens of the other. *)
Theorem trailing_zero_key_equivalent {G : Type} `{Random G}
  (w : World G) (kb : bytes) :
  (length kb < 64)%nat ->
  (forall base,
      fst (_signature base (KBytes (kb ++ [x00])) w)
      = fst (_signature base (KBytes kb) w))
  /\ (forall tok signed,
        fst (check_session_id_signature tok (KBytes (kb ++ [x00])) signed w)
        = fst (check_session_id_signature tok (KBytes kb) signed w)).
Proof.
  intros Hlen. apply same_signatures_same_results. intros base.
  unfold expected_signature, HMAC.hmac_sha256.
  now rewrite (block_key_trailing_zero kb Hlen).
Qed.

Lemma trailing_zero_key_equivalent_witness :
  (forall base,
      fst (_signature base (KBytes (topsecret ++ [x00])) (world0 true))
      = fst (_signature base (KBytes topsecret) (world0 true)))
  /\ (forall tok signed,
        fst (check_session_id_signature tok (KBytes (topsecret ++ [x00]))
                                        signed (world0 true))
        = fst (check_session_id_signature tok (KBytes topsecret)
                                          signed (world0 true))).
Proof.
  apply (trailing_zero_key_equivalent (world0 true) topsecret).
  simpl. lia.
Defined.

(** X13. A key longer than the hmac block (64 bytes) counts as its sha-256
    digest: the key and the 32 bytes of its digest give the same
    signatures, so each accepts the tokens of the other. *)
Theorem long_key_equivalent_to_digest {G : Type} `{Random G}
  (w : World G) (kb : bytes) :
  (64 < length kb)%nat ->
  (forall base,
      fst (_signature base (KBytes (SHA256.digest kb)) w)
      = fst (_signature base (KBytes kb) w))
  /\ (forall tok signed,
        fst (check_session_id_signature tok (KBytes (SHA256.digest kb))
                                        signed w)
        = fst (check_session_id_signature tok (KBytes kb) signed w)).
Proof.
  intros Hlen. apply same_signatures_same_results. intros base.
  unfold expected_signature, HMAC.hmac_sha256.
  now rewrite (block_key_long kb Hlen).
Qed.

Lemma long_key_equivalent_to_digest_witness :
  (forall base,
      fst (_signature base (KBytes (SHA256.digest (repeat x6b 70)))
                      (world0 true))
      = fst (_signature base (KBytes (repeat x6b 70)) (world0 true)))
  /\ (forall tok signed,
        fst (check_session_id_signature tok
               (KBytes (SHA256.digest (repeat x6b 70))) signed (world0 true))
        = fst (check_session_id_signature tok (KBytes (repeat x6b 70))
                                          signed (world0 true))).
Proof.
  apply (long_key_equivalent_to_digest (world0 true) (repeat x6b 70)).
  simpl. lia.
Defined.

Lemma utf8_head_char (c : ascii) (r : bytes) :
  utf8_head (utf8_char c ++ r) = Some (c, r).
Proof.
  destruct c as [b0 b1 b2 b3 b4 b5 b6 b7].
  destruct b0, b1, b2, b3, b4, b5, b6, b7; reflexivity.
Qed.

Lemma utf8_encode_injective (s1 s2 : str) :
  utf8_encode s1 = utf8_encode s2 -> s1 = s2.
Proof.
  revert s2. induction s1 as [|c1 s1 IH]; intros [|c2 s2] E.
  - reflexivity.
  - apply (f_equal utf8_head) in E. cbn [utf8_encode flat_map] in E.
    rewrite utf8_head_char in E. discriminate E.
  - apply (f_equal utf8_head) in E. cbn [utf8_encode flat_map] in E.
    rewrite utf8_head_char in E. discriminate E.
  - apply (f_equal utf8_head) in E. cbn [utf8_encode flat_map] in E.
    rewrite !utf8_head_char in E. injection E as -> E.
    f_equal. apply IH. exact E.
Qed.

Lemma Z_of_byte_range (x : byte) : 0 <= Z_of_byte x < 256.
Proof.
  unfold Z_of_byte. pose proof (Byte.to_N_bounded x) as Hb. lia.
Qed.

Lemma Z_of_byte_injective (x y : byte) : Z_of_byte x = Z_of_byte y -> x = y.
Proof.
  unfold Z_of_byte. intros E. apply N2Z.inj in E.
  pose proof (Byte.of_to_N x) as Hx. rewrite E, Byte.of_to_N in Hx.
  now injection Hx.
Qed.

Lemma b64_index_digit (n : Z) : 0 <= n < 64 -> b64_index (b64_digit n) = n.
Proof.
  intros Hn.
  assert (Hall : forallb (fun m => b64_index (b64_digit (Z.of_nat m))
                                   =? Z.of_nat m) (seq 0 64) = true)
    by (vm_compute; reflexivity).
  assert (Hin : In (Z.to_nat n) (seq 0 64)) by (apply in_seq; lia).
  pose proof (proj1 (forallb_forall _ _) Hall (Z.to_nat n) Hin) as Hm.
  cbv beta in Hm. rewrite Z2Nat.id in Hm by lia. now apply Z.eqb_eq.
Qed.

Lemma b64_digit_injective (n m : Z) :
  0 <= n < 64 -> 0 <= m < 64 -> b64_digit n = b64_digit m -> n = m.
Proof.
  intros Hn Hm E. apply (f_equal b64_index) in E.
  now rewrite !b64_index_digit in E.
Qed.

Lemma b64encode_body (b : bytes) :
  exists p, urlsafe_b64encode b = b64_body b ++ repeat b64_pad p.
Proof.
  enough (Hn : forall n b, (length b <= n)%nat ->
                 exists p, urlsafe_b64encode b = b64_body b ++ repeat b64_pad p)
    by (apply (Hn (length b)); apply Nat.le_refl).
  clear b. induction n as [|n IH]; intros [|x [|y [|z rest]]] Hlen;
    simpl in Hlen; try lia.
  1, 2: exists 0%nat; reflexivity.
  - exists 2%nat. reflexivity.
  - exists 1%nat. reflexivity.
  - destruct (IH rest ltac:(lia)) as (p & E). exists p.
    cbn [urlsafe_b64encode b64_body]. now rewrite E.
Qed.

Lemma b64_body_b64url (b : bytes) :
  Forall (fun x => is_b64url (ascii_of_byte x) = true) (b64_body b).
Proof.
  enough (Hn : forall n b, (length b <= n)%nat ->
                 Forall (fun x => is_b64url (ascii_of_byte x) = true)
                        (b64_body b))
    by (apply (Hn (length b)); apply Nat.le_refl).
  clear b. induction n as [|n IH]; intros [|x [|y [|z rest]]] Hlen;
    simpl in Hlen; try lia; cbn [b64_body];
    repeat (constructor; [apply b64_digit_b64url|]);
    try constructor.
  apply IH. lia.
Qed.

Lemma base64_encode_body (b : bytes) :
  _base64_encode (KBytes b) = Ok (text_of (b64_body b)).
Proof.
  rewrite base64_encode_bytes. destruct (b64encode_body b) as (p & ->).
  rewrite text_of_app.
  replace (text_of (repeat b64_pad p)) with (repeat "="%char p)
    by (unfold text_of; now rewrite map_repeat).
  rewrite rstrip_pads; [reflexivity|].
  unfold text_of. apply Forall_map.
  eapply Forall_impl; [|apply b64_body_b64url].
  intros x Hx. now apply b64url_not_pad.
Qed.

Ltac byte_ranges :=
  repeat match goal with
         | |- context [Z_of_byte ?x] =>
             lazymatch goal with
             | _ : 0 <= Z_of_byte x < 256 |- _ => fail
             | _ => pose proof (Z_of_byte_range x)
             end
         | H : context [Z_of_byte ?x] |- _ =>
             lazymatch goal with
             | _ : 0 <= Z_of_byte x < 256 |- _ => fail
             | _ => pose proof (Z_of_byte_range x)
             end
         end.

Ltac digit_eq H :=
  apply b64_digit_injective in H;
  [|byte_ranges; Z.div_mod_to_equations; lia
   |byte_ranges; Z.div_mod_to_equations; lia].

Lemma b64_body_injective (b1 b2 : bytes) :
  b64_body b1 = b64_body b2 -> b1 = b2.
Proof.
  enough (Hn : forall n b1 b2, (length b1 <= n)%nat ->
                 b64_body b1 = b64_body b2 -> b1 = b2)
    by (apply (Hn (length b1)); apply Nat.le_refl).
  clear b1 b2.
  induction n as [|n IH];
    intros [|x1 [|y1 [|z1 r1]]] [|x2 [|y2 [|z2 r2]]] Hlen E;
    simpl in Hlen; try lia; cbn [b64_body] in E;
    try discriminate E; try reflexivity.
  all: try (injection E as E1 E2; digit_eq E1; digit_eq E2;
            f_equal; apply Z_of_byte_injective; byte_ranges;
            Z.div_mod_to_equations; lia).
  all: try (injection E as E1 E2 E3; digit_eq E1; digit_eq E2; digit_eq E3;
            assert (Z_of_byte x1 = Z_of_byte x2 /\ Z_of_byte y1 = Z_of_byte y2)
              as [Hx Hy]
              by (byte_ranges; Z.div_mod_to_equations; lia);
            apply Z_of_byte_injective in Hx, Hy; now subst).
  injection E as E1 E2 E3 E4 E5.
  digit_eq E1; digit_eq E2; digit_eq E3; digit_eq E4.
  assert (Z_of_byte x1 = Z_of_byte x2 /\ Z_of_byte y1 = Z_of_byte y2
          /\ Z_of_byte z1 = Z_of_byte z2) as (Hx & Hy & Hz)
    by (byte_ranges; Z.div_mod_to_equations; lia).
  apply Z_of_byte_injective in Hx, Hy, Hz. subst.
  f_equal. f_equal. f_equal. apply (IH r1 r2); [lia|exact E5].
Qed.

(** X14. Normalisation keeps text keys apart: two text keys with the same
    normal form are the same text. *)
Theorem text_keys_injective (s1 s2 : str) :
  _ensure_bytes (KStr s1) = _ensure_bytes (KStr s2) -> s1 = s2.
Proof.
  cbn [_ensure_bytes]. intros E. injection E as E.
  now apply utf8_encode_injective.
Qed.

Lemma text_keys_injective_witness :
  lit "topsecret" = map ascii_of_byte topsecret.
Proof.
  apply (text_keys_injective (lit "topsecret") (map ascii_of_byte topsecret)).
  reflexivity.
Defined.

(** X15. Dropping the '=' loses nothing: [_base64_encode] gives different
    texts for different bytes, so two signatures are equal only when the
    digests are. *)
Theorem base64_encode_injective (b1 b2 : bytes) :
  _base64_encode (KBytes b1) = _base64_encode (KBytes b2) -> b1 = b2.
Proof.
  rewrite !base64_encode_body. intros E. injection E as E.
  apply b64_body_injective.
  unfold text_of in E.
  apply (f_equal (map byte_of_ascii)) in E.
  rewrite !map_map in E.
  rewrite !(map_ext _ (fun x => x) byte_of_ascii_of_byte), !map_id in E.
  exact E.
Qed.

Lemma base64_encode_injective_witness :
  [x61; x62] = list_byte_of_string "ab".
Proof.
  apply (base64_encode_injective [x61; x62] (list_byte_of_string "ab")).
  reflexivity.
Defined.

(** X17. An unsigned token does not pass a signed check: the token of an
    unsigned generation has no '-', so the signed check under any key,
    present or not, returns [False] and computes nothing. *)
Theorem unsigned_token_fails_signed_check {G : Type} `{Random G}
  (w : World G) (k k' : key) :
  exists tok w1,
    generate_session_id k false w = (Ok tok, w1)
    /\ forall w2 : World G,
         check_session_id_signature tok k' true w2 = (Ok false, w2).
Proof.
  destruct (generate_unsigned_ok k w) as (tok & w1 & E & Htok).
  exists tok, w1. split; [exact E|]. intros w2.
  apply check_no_dash. exact (re_unsigned_no_dash _ _ Htok).
Qed.

(** X18. The signed check does not look at the shape of the base
    identifier: any text without '-', of any length and alphabet (the
    empty text too), followed by '-' and its signature, is accepted. *)
Theorem check_accepts_any_base {G : Type} `{Random G}
  (w : World G) (base : str) (k : key) (kb : bytes) :
  ~ In "-"%char base ->
  _ensure_bytes k = Some kb ->
  fst (check_session_id_signature
         (base ++ lit "-" ++ spec_signature kb base) k true w)
  = Ok true.
Proof.
  intros Hb Hk. rewrite <- expected_signature_spec.
  now apply check_accepts.
Qed.

Lemma check_accepts_any_base_witness :
  fst (check_session_id_signature
         ([] ++ lit "-" ++ spec_signature topsecret [])
         (KBytes topsecret) true (world0 true))
  = Ok true.
Proof.
  apply (check_accepts_any_base (world0 true) [] (KBytes topsecret) topsecret).
  - simpl. tauto.
  - reflexivity.
Defined.

(** ** The codec and the key over every [str] *)


Lemma utf8_char_scalar (c : N) :
  if FullStr.is_scalar c
  then exists x bs, FullStr.utf8_char c = Some (x :: bs)
  else FullStr.utf8_char c = None.
Proof.
  unfold FullStr.utf8_char, FullStr.is_scalar.
  destruct (Z.ltb_spec (Z.of_N c) 128) as [H1|H1].
  - replace (c <? 55296)%N with true by (symmetry; apply N.ltb_lt; lia).
    cbn [orb]. eauto.
  - destruct (Z.ltb_spec (Z.of_N c) 2048) as [H2|H2].
    + replace (c <? 55296)%N with true by (symmetry; apply N.ltb_lt; lia).
      cbn [orb]. eauto.
    + destruct ((c <? 55296)%N || ((57343 <? c)%N && (c <? 1114112)%N));
        [|reflexivity].
      destruct (Z.of_N c <? 65536); eauto.
Qed.

Lemma encode_utf8_encodable (s : FullStr.text) :
  if encodable s then exists b, FullStr.encode_utf8 s = Ok b
  else FullStr.encode_utf8 s = Raise UnicodeEncodeError.
Proof.
  induction s as [|c s IH]; cbn [encodable forallb FullStr.encode_utf8].
  - now exists [].
  - pose proof (utf8_char_scalar c) as Hc.
    destruct (FullStr.is_scalar c); cbn [andb].
    + destruct Hc as (x & bs & ->). fold (encodable s).
      destruct (encodable s).
      * destruct IH as (b & ->). eauto.
      * now rewrite IH.
    + now rewrite Hc.
Qed.







Lemma ensure_bytes_encodable (k : FullStr.skey) :
  if encodable_key k then exists nb, FullStr._ensure_bytes k = Ok nb
  else FullStr._ensure_bytes k = Raise UnicodeEncodeError.
Proof.
  destruct k as [|b|s]; cbn [encodable_key FullStr._ensure_bytes]; eauto.
  pose proof (encode_utf8_encodable s) as Hs.
  destruct (encodable s).
  - destruct Hs as (b & ->). eauto.
  - now rewrite Hs.
Qed.

Lemma ensure_bytes_skey_of (k : option bytes) :
  FullStr._ensure_bytes (FullStr.skey_of k) = Ok k.
Proof. now destruct k. Qed.

Lemma trstrip_snoc (chars s : FullStr.text) (c : N) :
  FullStr.trstrip chars (s ++ [c])
  = if FullStr.tmem c chars then FullStr.trstrip chars s else s ++ [c].
Proof.
  induction s as [|a s IH]; simpl.
  - destruct (FullStr.tmem c chars); reflexivity.
  - rewrite IH. destruct (FullStr.tmem c chars); [reflexivity|].
    destruct s; reflexivity.
Qed.

Lemma trstrip_keeps (chars s : FullStr.text) :
  Forall (fun c => FullStr.tmem c chars = false) s ->
  FullStr.trstrip chars s = s.
Proof.
  induction 1 as [|a s Ha _ IH]; simpl; [reflexivity|].
  rewrite IH, Ha. destruct s; reflexivity.
Qed.

Lemma trstrip_pads (s : FullStr.text) (p : nat) :
  Forall (fun c => FullStr.tmem c (FullStr.tlit "=") = false) s ->
  FullStr.trstrip (FullStr.tlit "=") (s ++ repeat 61%N p) = s.
Proof.
  intros Hs. induction p as [|p IH].
  - rewrite app_nil_r. now apply trstrip_keeps.
  - cbn [repeat]. rewrite repeat_cons, app_assoc, trstrip_snoc. exact IH.
Qed.

Lemma tsplit1_absent (sep : N) (s : FullStr.text) :
  ~ In sep s -> FullStr.tsplit1 sep s = [s].
Proof.
  induction s as [|c s IH]; simpl; intros Hn; [reflexivity|].
  destruct (N.eqb_spec c sep) as [->|_].
  - exfalso. apply Hn. now left.
  - rewrite IH; [reflexivity|]. intros Hin. apply Hn. now right.
Qed.

Lemma tsplit1_first (sep : N) (a b : FullStr.text) :
  ~ In sep a -> FullStr.tsplit1 sep (a ++ sep :: b) = [a; b].
Proof.
  induction a as [|c a IH]; simpl; intros Hn.
  - now rewrite N.eqb_refl.
  - destruct (N.eqb_spec c sep) as [->|_].
    + exfalso. apply Hn. now left.
    + rewrite IH; [reflexivity|]. intros Hin. apply Hn. now right.
Qed.

Lemma text_eqb_eq (a b : FullStr.text) : FullStr.text_eqb a b = true <-> a = b.
Proof.
  unfold FullStr.text_eqb.
  destruct (list_eq_dec N.eq_dec a b); split; congruence.
Qed.

Lemma b64url_byte_code (x : byte) :
  is_b64url (ascii_of_byte x) = true ->
  FullStr.tmem (Byte.to_N x) (FullStr.tlit "=") = false
  /\ (Byte.to_N x <? 128)%N = true.
Proof. destruct x; intros Hx; try discriminate Hx; split; reflexivity. Qed.

(** The signature text over every [str]: the digits of the base64 text of
    the digest. *)
Lemma full_base64_encode_bytes (d : bytes) :
  FullStr._base64_encode (FullStr.SBytes d) = Ok (map Byte.to_N (b64_body d)).
Proof.
  unfold FullStr._base64_encode, FullStr.decode_ascii.
  cbn [FullStr._ensure_bytes]. rewrite b64encode_ascii.
  destruct (b64encode_body d) as (p & ->).
  rewrite map_app, map_repeat. change (Byte.to_N b64_pad) with 61%N.
  rewrite trstrip_pads; [reflexivity|].
  apply Forall_map. eapply Forall_impl; [|apply b64_body_b64url].
  intros x Hx. exact (proj1 (b64url_byte_code x Hx)).
Qed.

Lemma full_signature_ascii (d : bytes) :
  FullStr.t_is_ascii (map Byte.to_N (b64_body d)) = true.
Proof.
  apply forallb_forall. intros c Hc. apply in_map_iff in Hc.
  destruct Hc as (x & <- & Hx).
  exact (proj2 (b64url_byte_code x
                  (proj1 (Forall_forall _ _) (b64_body_b64url d) x Hx))).
Qed.

Section FullRuns.

Context {G : Type} `{Random G}.

Lemma full_signature_run (base : FullStr.text) (k : FullStr.skey)
      (kb bb : bytes) (w : World G) :
  FullStr._ensure_bytes k = Ok (Some kb) ->
  FullStr.encode_utf8 base = Ok bb ->
  FullStr._signature base k w
  = (Ok (map Byte.to_N (b64_body (HMAC.hmac_sha256 kb bb))),
     record (Signed kb bb) w).
Proof.
  intros Hk Hb. unfold FullStr._signature, bind, lift.
  rewrite Hk, Hb. unfold hmac_digest, bind, log, ret, lift.
  now rewrite full_base64_encode_bytes.
Qed.

Lemma full_signature_unencodable (base : FullStr.text) (k : FullStr.skey)
      (nb : option bytes) (w : World G) :
  FullStr._ensure_bytes k = Ok nb ->
  encodable base = false ->
  FullStr._signature base k w = (Raise UnicodeEncodeError, w).
Proof.
  intros Hk Hb. unfold FullStr._signature, bind, lift. rewrite Hk.
  pose proof (encode_utf8_encodable base) as E. rewrite Hb in E.
  now rewrite E.
Qed.

Lemma full_check_signed_run (base rest : FullStr.text) (k : FullStr.skey)
      (nb : option bytes) (w : World G) :
  ~ In FullStr.hyphen base ->
  FullStr._ensure_bytes k = Ok nb ->
  FullStr.check_session_id_signature (base ++ FullStr.hyphen :: rest) k true w
  = match FullStr._signature base k w with
    | (Ok sig, w') => (FullStr.t_compare_digest sig rest, w')
    | (Raise e, w') => (Raise e, w')
    end.
Proof.
  intros Hb Hk. unfold FullStr.check_session_id_signature, bind, lift.
  rewrite Hk, (tsplit1_first _ _ _ Hb).
  unfold FullStr._signature, bind, lift.
  rewrite ensure_bytes_skey_of, Hk. reflexivity.
Qed.

End FullRuns.

(** C6, as stated, fails: the key is normalised before the signed flag is
    looked at, so with a text key that has no utf-8 encoding (the lone
    surrogate U+DC80) the unsigned check raises and returns no [True]. *)
Lemma check_unsigned_raises_on_surrogate_key :
  FullStr.check_session_id_signature (FullStr.tlit "abc")
    (FullStr.SText [56448%N]) false (world0 true)
  = (Raise UnicodeEncodeError, world0 true).
Proof. reflexivity. Qed.

(** C6, amended. With signing off, the check returns [True] for every
    token and every key that is [None], bytes or a text with a utf-8
    encoding, and leaves the state as it found it: no hmac is computed.
    For a text key without a utf-8 encoding it raises the
    [UnicodeEncodeError] of the normalisation and leaves the state as it
    found it. *)
Theorem check_unsigned_by_key {G : Type} `{Random G}
  (w : World G) (tok : FullStr.text) (k : FullStr.skey) :
  FullStr.check_session_id_signature tok k false w
  = if encodable_key k then (Ok true, w) else (Raise UnicodeEncodeError, w).
Proof.
  unfold FullStr.check_session_id_signature, bind, lift.
  pose proof (ensure_bytes_encodable k) as Hk.
  destruct (encodable_key k).
  - destruct Hk as (nb & ->). reflexivity.
  - now rewrite Hk.
Qed.



(** X6. The four outcomes of a signed check with a present key, on a token
    cut at its first '-' into [base] and [rest], over every [str]: [True]
    exactly when the signature of [base] is [rest]; [False] exactly when
    [base] has a utf-8 encoding, [rest] is ascii and is not that signature;
    a [TypeError] (from [hmac.compare_digest]) exactly when [base] has a
    utf-8 encoding and [rest] has a character that is not ascii; a
    [UnicodeEncodeError] (from encoding [base]) exactly when [base] has no
    utf-8 encoding. *)
Theorem check_outcomes {G : Type} `{Random G}
  (w : World G) (base rest : FullStr.text) (k : FullStr.skey) (kb : bytes) :
  ~ In FullStr.hyphen base ->
  FullStr._ensure_bytes k = Ok (Some kb) ->
  let r := fst (FullStr.check_session_id_signature
                  (base ++ FullStr.hyphen :: rest) k true w) in
  (r = Ok true <-> fst (FullStr._signature base k w) = Ok rest)
  /\ (r = Ok false <->
      encodable base = true /\ FullStr.t_is_ascii rest = true
      /\ fst (FullStr._signature base k w) <> Ok rest)
  /\ (r = Raise TypeError <->
      encodable base = true /\ FullStr.t_is_ascii rest = false)
  /\ (r = Raise UnicodeEncodeError <-> encodable base = false).
Proof.
  intros Hb Hk r. subst r.
  rewrite (full_check_signed_run base rest k (Some kb) w Hb Hk).
  pose proof (encode_utf8_encodable base) as He.
  destruct (encodable base) eqn:Hen.
  - destruct He as (bb & He).
    rewrite (full_signature_run base k kb bb w Hk He). cbn [fst].
    unfold FullStr.t_compare_digest. rewrite full_signature_ascii.
    cbn [andb].
    set (sig := map Byte.to_N (b64_body (HMAC.hmac_sha256 kb bb))).
    destruct (FullStr.t_is_ascii rest) eqn:Ha.
    + destruct (FullStr.text_eqb sig rest) eqn:Hq.
      * apply text_eqb_eq in Hq. rewrite Hq.
        repeat split; try discriminate; try reflexivity.
        -- intros (_ & _ & Hne). now exfalso.
        -- intros (_ & Hf). discriminate Hf.
      * assert (Hne : @Ok FullStr.text sig <> Ok rest).
        { intros E. apply (f_equal (fun o => match o with
                                             | Ok x => FullStr.text_eqb x rest
                                             | Raise _ => false
                                             end)) in E.
          rewrite Hq in E. symmetry in E.
          rewrite (proj2 (text_eqb_eq rest rest) eq_refl) in E.
          discriminate E. }
        repeat split; try discriminate; try assumption; try reflexivity.
        -- intros E. now exfalso.
        -- intros (_ & Hf). discriminate Hf.
    + repeat split; try discriminate; try reflexivity.
      * intros E. injection E as E. unfold sig in *.
        rewrite <- E, full_signature_ascii in Ha. discriminate Ha.
      * intros (_ & Hf & _). discriminate Hf.
  - rewrite (full_signature_unencodable base k (Some kb) w Hk Hen). cbn [fst].
    repeat split; try discriminate; try reflexivity.
    + intros (Hf & _). discriminate Hf.
    + intros (Hf & _). discriminate Hf.
Qed.

Lemma check_outcomes_witness :
  let r := fst (FullStr.check_session_id_signature
                  (FullStr.tlit "abc" ++ FullStr.hyphen :: [233%N])
                  (FullStr.SText [233%N; 8364%N]) true (world0 true)) in
  (r = Ok true <->
   fst (FullStr._signature (FullStr.tlit "abc")
          (FullStr.SText [233%N; 8364%N]) (world0 true)) = Ok [233%N])
  /\ (r = Ok false <->
      encodable (FullStr.tlit "abc") = true
      /\ FullStr.t_is_ascii [233%N] = true
      /\ fst (FullStr._signature (FullStr.tlit "abc")
                (FullStr.SText [233%N; 8364%N]) (world0 true)) <> Ok [233%N])
  /\ (r = Raise TypeError <->
      encodable (FullStr.tlit "abc") = true
      /\ FullStr.t_is_ascii [233%N] = false)
  /\ (r = Raise UnicodeEncodeError <-> encodable (FullStr.tlit "abc") = false).
Proof.
  apply (check_outcomes (world0 true) (FullStr.tlit "abc") [233%N]
           (FullStr.SText [233%N; 8364%N]) [xc3; xa9; xe2; x82; xac]).
  - simpl. intros Hin.
    repeat (destruct Hin as [Hin|Hin]; [discriminate Hin|]). exact Hin.
  - reflexivity.
Defined.

(** ** The two models agree on text below U+0100 *)

Lemma N_of_ascii_code (c : ascii) : Z.of_N (N_of_ascii c) = code c.
Proof. reflexivity. Qed.

Lemma code_range (c : ascii) : 0 <= code c < 256.
Proof. unfold code. pose proof (N_ascii_bounded c). lia. Qed.

Lemma up_utf8_char (c : ascii) :
  FullStr.utf8_char (N_of_ascii c) = Some (utf8_char c).
Proof.
  unfold FullStr.utf8_char, utf8_char. rewrite N_of_ascii_code.
  pose proof (code_range c) as Hc.
  destruct (code c <? 128); [reflexivity|].
  destruct (Z.ltb_spec (code c) 2048); [reflexivity|lia].
Qed.

Lemma up_encode (s : str) : FullStr.encode_utf8 (up s) = Ok (utf8_encode s).
Proof.
  induction s as [|c s IH]; [reflexivity|].
  cbn [up map FullStr.encode_utf8]. fold (up s).
  now rewrite up_utf8_char, IH.
Qed.

Lemma up_ensure_bytes (k : key) :
  FullStr._ensure_bytes (up_key k) = Ok (_ensure_bytes k).
Proof.
  destruct k as [|b|s]; [reflexivity|reflexivity|].
  cbn [up_key FullStr._ensure_bytes _ensure_bytes]. now rewrite up_encode.
Qed.

Lemma N_of_ascii_eqb (c d : ascii) :
  (N_of_ascii c =? N_of_ascii d)%N = Ascii.eqb c d.
Proof.
  destruct (Ascii.eqb_spec c d) as [->|Hne].
  - apply N.eqb_refl.
  - apply N.eqb_neq. intros E. apply Hne.
    now rewrite <- (ascii_N_embedding c), <- (ascii_N_embedding d), E.
Qed.

Lemma up_injective (a b : str) : up a = up b -> a = b.
Proof.
  revert b. induction a as [|c a IH]; intros [|d b] E;
    try discriminate E; [reflexivity|].
  cbn [up map] in E. injection E as Hc E.
  f_equal; [|now apply IH].
  now rewrite <- (ascii_N_embedding c), <- (ascii_N_embedding d), Hc.
Qed.

Lemma up_split1 (c : ascii) (s : str) :
  FullStr.tsplit1 (N_of_ascii c) (up s) = map up (split1 c s).
Proof.
  induction s as [|d s IH]; [reflexivity|].
  cbn [up map FullStr.tsplit1 split1]. fold (up s).
  rewrite N_of_ascii_eqb. destruct (Ascii.eqb d c); [reflexivity|].
  rewrite IH. destruct (split1 c s); reflexivity.
Qed.

Lemma up_is_ascii (s : str) : FullStr.t_is_ascii (up s) = is_ascii s.
Proof.
  induction s as [|c s IH]; [reflexivity|].
  cbn [up map FullStr.t_is_ascii is_ascii forallb].
  fold (up s). fold (FullStr.t_is_ascii (up s)). fold (is_ascii s).
  rewrite IH. f_equal. unfold code.
  destruct (N.ltb_spec (N_of_ascii c) 128), (Z.ltb_spec (Z.of_N (N_of_ascii c)) 128);
    try reflexivity; lia.
Qed.

Lemma up_eqb (a b : str) : FullStr.text_eqb (up a) (up b) = str_eqb a b.
Proof.
  destruct (str_eqb a b) eqn:E.
  - apply str_eqb_eq in E. subst. now apply text_eqb_eq.
  - destruct (FullStr.text_eqb (up a) (up b)) eqn:E'; [|reflexivity].
    apply text_eqb_eq, up_injective in E'. subst.
    rewrite (proj2 (str_eqb_eq b b) eq_refl) in E. discriminate E.
Qed.

Lemma up_compare_digest (a b : str) :
  FullStr.t_compare_digest (up a) (up b) = compare_digest a b.
Proof.
  unfold FullStr.t_compare_digest, compare_digest.
  rewrite (up_is_ascii a), (up_is_ascii b), (up_eqb a b). reflexivity.
Qed.

Lemma up_text_of (b : bytes) : up (text_of b) = map Byte.to_N b.
Proof.
  unfold up, text_of. rewrite map_map. apply map_ext.
  intros x. now destruct x.
Qed.

Lemma expected_signature_body (kb : bytes) (base : str) :
  expected_signature kb base
  = text_of (b64_body (HMAC.hmac_sha256 kb (utf8_encode base))).
Proof.
  pose proof (base64_encode_bytes (HMAC.hmac_sha256 kb (utf8_encode base)))
    as E.
  rewrite base64_encode_body in E. unfold expected_signature.
  congruence.
Qed.

Section Agreement.

Context {G : Type} `{Random G}.

(** On text below U+0100 the signature over every [str] is the signature
    of the first model. *)
Lemma up_signature (base : str) (k : key) (w : World G) :
  FullStr._signature (up base) (up_key k) w
  = (res_map up (fst (_signature base k w)), snd (_signature base k w)).
Proof.
  destruct (_ensure_bytes k) as [kb|] eqn:Hk.
  - rewrite (full_signature_run (up base) (up_key k) kb (utf8_encode base) w)
      by (rewrite ?up_ensure_bytes, ?Hk; auto using up_encode).
    rewrite (signature_run base k kb w Hk). cbn [fst snd res_map].
    now rewrite expected_signature_body, up_text_of.
  - rewrite (signature_absent base k w Hk).
    unfold FullStr._signature, bind, lift.
    now rewrite up_ensure_bytes, Hk, up_encode.
Qed.

(** On text below U+0100 the check over every [str] is the check of the
    first model. *)
Lemma up_check (tok : str) (k : key) (signed : bool) (w : World G) :
  FullStr.check_session_id_signature (up tok) (up_key k) signed w
  = check_session_id_signature tok k signed w.
Proof.
  unfold FullStr.check_session_id_signature, check_session_id_signature,
    bind at 1, lift at 1.
  rewrite up_ensure_bytes. destruct signed; [|reflexivity].
  change FullStr.hyphen with (N_of_ascii "-"). rewrite up_split1.
  destruct (split1 "-" tok) as [|a [|b [|c l]]]; try reflexivity.
  cbn [map]. unfold bind.
  replace (FullStr.skey_of (_ensure_bytes k))
    with (up_key (key_of (_ensure_bytes k)))
    by (now destruct (_ensure_bytes k)).
  rewrite up_signature.
  destruct (_signature a (key_of (_ensure_bytes k)) w) as [[sig|e] w'];
    cbn [fst snd res_map]; [|reflexivity].
  unfold lift. now rewrite up_compare_digest.
Qed.

End Agreement.

Section AgreementGenerate.

Context {G : Type} `{Random G}.

Lemma up_skey_of (nb : option bytes) :
  FullStr.skey_of nb = up_key (key_of nb).
Proof. now destruct nb. Qed.

Lemma up_reseed (u : bool) (k : key) (w : World G) :
  FullStr._reseed_if_needed u (up_key k) w = _reseed_if_needed u k w.
Proof.
  unfold FullStr._reseed_if_needed, _reseed_if_needed, bind at 1, lift.
  now rewrite up_ensure_bytes.
Qed.

Lemma up_choice (chars : str) (w : World G) :
  FullStr.choice (up chars) w
  = (res_map N_of_ascii (fst (random_choice chars w)),
     snd (random_choice chars w)).
Proof.
  unfold FullStr.choice, random_choice.
  destruct chars as [|c cs]; [reflexivity|].
  unfold up. cbn [map].
  change (N_of_ascii c :: map N_of_ascii cs)
    with (map N_of_ascii (c :: cs)).
  rewrite length_map.
  destruct (randbelow (random w) (length (c :: cs))) as [i g].
  rewrite nth_error_map.
  destruct (nth_error (c :: cs) i); reflexivity.
Qed.

Lemma up_join_choices (n : nat) (chars : str) (w : World G) :
  FullStr.join_choices n (up chars) w
  = (res_map up (fst (join_choices n chars w)),
     snd (join_choices n chars w)).
Proof.
  revert w. induction n as [|n IH]; intros w; [reflexivity|].
  cbn [FullStr.join_choices join_choices]. unfold bind at 1 3 5.
  rewrite up_choice.
  destruct (random_choice chars w) as [[c|e] w1]; cbn [fst snd res_map];
    [|reflexivity].
  unfold bind. rewrite IH.
  destruct (join_choices n chars w1) as [[s|e] w2]; reflexivity.
Qed.

Lemma up_get_random_string (n : Z) (chars : str) (k : key) (w : World G) :
  FullStr._get_random_string n (up chars) (up_key k) w
  = (res_map up (fst (_get_random_string n chars k w)),
     snd (_get_random_string n chars k w)).
Proof.
  unfold FullStr._get_random_string, _get_random_string, bind, lift,
    get_using_sysrandom.
  rewrite up_ensure_bytes, up_skey_of, up_reseed.
  destruct (_reseed_if_needed (using_sysrandom w) (key_of (_ensure_bytes k)) w)
    as [[[]|e] w1]; [|reflexivity].
  rewrite up_join_choices.
  destruct (join_choices (Z.to_nat n) chars w1) as [[s|e] w2]; reflexivity.
Qed.

(** On a key below U+0100 the generation over every [str] is the
    generation of the first model. *)
Lemma up_generate (k : key) (signed : bool) (w : World G) :
  FullStr.generate_session_id (up_key k) signed w
  = (res_map up (fst (generate_session_id k signed w)),
     snd (generate_session_id k signed w)).
Proof.
  unfold FullStr.generate_session_id, generate_session_id, bind, lift.
  rewrite up_ensure_bytes, up_skey_of.
  change FullStr.default_allowed_chars with (up default_allowed_chars).
  destruct signed; [|apply up_get_random_string].
  rewrite up_get_random_string.
  destruct (_get_random_string default_length default_allowed_chars
              (key_of (_ensure_bytes k)) w) as [[base|e] w1];
    cbn [fst snd res_map]; [|reflexivity].
  rewrite up_signature.
  destruct (_signature base (key_of (_ensure_bytes k)) w1) as [[s|e] w2];
    cbn [fst snd res_map]; [|reflexivity].
  unfold ret. cbn [fst snd res_map]. f_equal. f_equal.
  unfold up. now rewrite !map_app.
Qed.

End AgreementGenerate.
